(** * ctf-time-puller: a shallow embedding of [ctftime.py]

    The scraper fetches the CTFTime "upcoming events" page, turns the rows of
    the events table into [CTFEvent] records, keeps the events that start in
    the next seven days and renders them as the fields of one Discord embed.

    Python values are modelled as follows.
    - [str] is a list of Unicode code points ([list N]); ASCII literals of
      the source are written with [str_of].
    - The Unicode character database consulted by [re] ([\d], [\w], [\s]),
      [str.strip] and [int] is not part of the repository: its non-ASCII
      part is the record [UCD], a parameter of the development.
    - Exceptions are values of [exn]; code that can raise lives in the
      state-and-exception monad [M].
    - [datetime.date] is a record of three integers, built by the checked
      constructor [datetime_date]; [now] is an argument of the filter.
    - The parsed page ([BeautifulSoup]) and the outcome of the HTTP request
      ([aiohttp]) are inputs: the model starts from what the scraper reads
      off them.
    - [print] is a diagnostic with no effect on the result and is left out,
      as is the timestamp of the embed. *)

From Stdlib Require Import ZArith NArith Ascii String Lia.
From stdpp Require Import base option list gmap.

Local Open Scope Z_scope.

(** ** Strings *)

Definition str : Type := list N.

Definition str_of (s : string) : str :=
  List.map N_of_ascii (list_ascii_of_string s).

(** U+2014 EM DASH, the separator of the date column. *)
Definition em_dash : N := 8212%N.

(** The non-ASCII part of the Unicode character database. *)
Record UCD : Type := {
  (** decimal value of a code point of category Nd *)
  ucd_decimal : N → option Z;
  (** [str.isalnum] on one code point *)
  ucd_alnum : N → bool;
  (** [str.isspace] on one code point *)
  ucd_space : N → bool
}.

(** A database with no non-ASCII digit, letter or space; used to run the
    model on ASCII inputs. *)
Definition ascii_ucd : UCD :=
  {| ucd_decimal := λ _, None; ucd_alnum := λ _, false; ucd_space := λ _, false |}.

Definition is_ascii (c : N) : bool := (c <? 128)%N.

Section CharClasses.
Context (ucd : UCD).

(** Decimal value of a digit, [None] when [c] is not a decimal digit. *)
Definition decimal_value (c : N) : option Z :=
  if is_ascii c then
    if ((48 <=? c) && (c <=? 57))%N then Some (Z.of_N c - 48) else None
  else ucd_decimal ucd c.

(** [\d] *)
Definition isdecimal (c : N) : bool := bool_decide (is_Some (decimal_value c)).

(** [\w]: alphanumeric or underscore *)
Definition isword (c : N) : bool :=
  if is_ascii c then
    ((48 <=? c) && (c <=? 57) || (65 <=? c) && (c <=? 90)
     || (97 <=? c) && (c <=? 122) || (c =? 95))%N
  else ucd_alnum ucd c.

(** [\s] and the characters removed by [str.strip()] *)
Definition isspace (c : N) : bool :=
  if is_ascii c then
    ((9 <=? c) && (c <=? 13) || (28 <=? c) && (c <=? 32))%N
  else ucd_space ucd c.

(** [s.lstrip()], [s.rstrip()], [s.strip()] *)
Fixpoint lstrip (s : str) : str :=
  match s with
  | c :: s' => if isspace c then lstrip s' else s
  | [] => []
  end.

Definition rstrip (s : str) : str := reverse (lstrip (reverse s)).

Definition strip (s : str) : str := rstrip (lstrip s).
End CharClasses.

(** [s.split(sep)] for a one-character separator: the pieces between the
    occurrences of [sep], in order; always at least one piece. *)
Fixpoint split (sep : N) (s : str) : list str :=
  match s with
  | [] => [[]]
  | c :: s' =>
      if (c =? sep)%N then [] :: split sep s'
      else match split sep s' with
           | p :: ps => (c :: p) :: ps
           | [] => [[c]]
           end
  end.

(** [sep in s] for a one-character [sep]. *)
Definition contains (sep : N) (s : str) : bool := existsb (N.eqb sep) s.

(** ** Exceptions and the state-and-exception monad *)

Inductive exn : Type :=
  | ValueError
  | TypeError
  | IndexError
  | OverflowError
  | ClientError          (* aiohttp.ClientError and its subclasses *)
  | TimeoutError
  | ParserRejectedMarkup (* bs4: the HTML parser rejects the markup *)
  | CancelledError       (* derives from BaseException only *)
  | KeyboardInterrupt    (* derives from BaseException only *).

(** [isinstance(e, Exception)]: what [except Exception] catches. *)
Definition is_Exception (e : exn) : bool :=
  match e with
  | CancelledError | KeyboardInterrupt => false
  | _ => true
  end.

Inductive result (A : Type) : Type :=
  | Ok (a : A)
  | Raise (e : exn).
Arguments Ok {A} a.
Arguments Raise {A} e.

(** A computation over a mutable store [S]: the outcome and the store as it
    is when the computation returns or raises. *)
Definition M (S A : Type) : Type := S → result A * S.

Definition ret {S A} (a : A) : M S A := λ s, (Ok a, s).
Definition raise {S A} (e : exn) : M S A := λ s, (Raise e, s).
Definition bind {S A B} (m : M S A) (f : A → M S B) : M S B :=
  λ s, match m s with
       | (Ok a, s') => f a s'
       | (Raise e, s') => (Raise e, s')
       end.
Definition lift {S A} (r : result A) : M S A := λ s, (r, s).
Definition modify {S} (f : S → S) : M S unit := λ s, (Ok tt, f s).

Notation "'let!' x ':=' m 'in' k" := (bind m (λ x, k))
  (at level 10, x name, m at level 100, k at level 200).

(** [try: m  except Exception as e: h e] *)
Definition try_except {S A} (m : M S A) (h : exn → M S A) : M S A :=
  λ s, match m s with
       | (Ok a, s') => (Ok a, s')
       | (Raise e, s') => if is_Exception e then h e s' else (Raise e, s')
       end.

(** [for x in xs: body x] *)
Fixpoint for_each {S B} (xs : list B) (body : B → M S unit) : M S unit :=
  match xs with
  | [] => ret tt
  | x :: xs' => let! u := body x in for_each xs' body
  end.

(** ** The [datetime] library *)

Module Datetime.

Definition MINYEAR : Z := 1.
Definition MAXYEAR : Z := 9999.
Definition MAXORDINAL : Z := 3652059.

Record date : Type := mk_date { year : Z; month : Z; day : Z }.

Definition is_leap (y : Z) : bool :=
  (y mod 4 =? 0) && (negb (y mod 100 =? 0) || (y mod 400 =? 0)).

Definition DAYS_IN_MONTH (m : Z) : Z :=
  match m with
  | 1 => 31 | 2 => 28 | 3 => 31 | 4 => 30 | 5 => 31 | 6 => 30
  | 7 => 31 | 8 => 31 | 9 => 30 | 10 => 31 | 11 => 30 | 12 => 31
  | _ => -1
  end.

Definition DAYS_BEFORE_MONTH (m : Z) : Z :=
  match m with
  | 1 => 0 | 2 => 31 | 3 => 59 | 4 => 90 | 5 => 120 | 6 => 151
  | 7 => 181 | 8 => 212 | 9 => 243 | 10 => 273 | 11 => 304 | 12 => 334
  | _ => -1
  end.

Definition days_in_month (y m : Z) : Z :=
  if (m =? 2) && is_leap y then 29 else DAYS_IN_MONTH m.

Definition days_before_year (y : Z) : Z :=
  let y := y - 1 in y * 365 + y / 4 - y / 100 + y / 400.

Definition days_before_month (y m : Z) : Z :=
  DAYS_BEFORE_MONTH m + (if (2 <? m) && is_leap y then 1 else 0).

(** [_check_date_fields] *)
Definition valid_date (y m d : Z) : bool :=
  (MINYEAR <=? y) && (y <=? MAXYEAR) && (1 <=? m) && (m <=? 12)
  && (1 <=? d) && (d <=? days_in_month y m).

(** [datetime(y, m, d).date()]: [ValueError] on fields out of range. *)
Definition datetime_date (y m d : Z) : result date :=
  if valid_date y m d then Ok (mk_date y m d) else Raise ValueError.

(** [d.toordinal()] *)
Definition toordinal (d : date) : Z :=
  days_before_year (year d) + days_before_month (year d) (month d) + day d.

Definition DI400Y : Z := 146097.
Definition DI100Y : Z := 36524.
Definition DI4Y : Z := 1461.

(** [date.fromordinal(n)] *)
Definition fromordinal (n : Z) : date :=
  let n := n - 1 in
  let n400 := n / DI400Y in let n := n mod DI400Y in
  let y := n400 * 400 + 1 in
  let n100 := n / DI100Y in let n := n mod DI100Y in
  let n4 := n / DI4Y in let n := n mod DI4Y in
  let n1 := n / 365 in let n := n mod 365 in
  let y := y + n100 * 100 + n4 * 4 + n1 in
  if (n1 =? 4) || (n100 =? 4) then mk_date (y - 1) 12 31
  else
    let leapyear := (n1 =? 3) && (negb (n4 =? 24) || (n100 =? 3)) in
    let m := Z.shiftr (n + 50) 5 in
    let preceding := DAYS_BEFORE_MONTH m + (if (2 <? m) && leapyear then 1 else 0) in
    if n <? preceding then
      let m := m - 1 in
      let preceding :=
        preceding - (DAYS_IN_MONTH m + (if (m =? 2) && leapyear then 1 else 0)) in
      mk_date y m (n - preceding + 1)
    else mk_date y m (n - preceding + 1).

(** Comparison of dates is comparison of the triples (year, month, day). *)
Definition date_lt (a b : date) : bool :=
  (year a <? year b)
  || (year a =? year b)
     && ((month a <? month b) || (month a =? month b) && (day a <? day b)).

Definition date_eqb (a b : date) : bool :=
  (year a =? year b) && (month a =? month b) && (day a =? day b).

Definition date_le (a b : date) : bool := date_lt a b || date_eqb a b.

(** An aware [datetime]: its calendar date and the time of day, in
    microseconds since midnight. *)
Record datetime : Type := mk_datetime { dt_date : date; dt_tod : Z }.

(** [dt + timedelta(days=n)]: [OverflowError] when the result leaves
    the range of representable dates. *)
Definition add_days (dt : datetime) (n : Z) : result datetime :=
  let days := toordinal (dt_date dt) + n in
  if (0 <? days) && (days <=? MAXORDINAL)
  then Ok (mk_datetime (fromordinal days) (dt_tod dt))
  else Raise OverflowError.

End Datetime.
Import Datetime.

(** ** The [re] library: a backtracking matcher

    The fragment of the pattern language used by the scraper: greedy bounded
    or unbounded repetition of a character class, concatenation, a greedy
    optional part and capturing groups.  [rmatch] is written in
    continuation-passing style: [k] is tried on every way of matching [r] at
    the front of [s], most greedy first, and the first success wins. *)

Inductive cclass : Type :=
  | CDigit            (* \d *)
  | CWord             (* \w *)
  | CSpace            (* \s *)
  | CLit (c : N).     (* a literal character *)

Inductive regex : Type :=
  | RRep (c : cclass) (lo : nat) (hi : option nat)  (* c{lo,hi}; no [hi]: unbounded *)
  | RSeq (r1 r2 : regex)
  | ROpt (r : regex)                                (* (?:r)? *)
  | RGroup (i : nat) (r : regex).                   (* the i-th capturing group *)

(** The groups of a match: group number to captured text; a group that did
    not take part has no entry ([None] in Python). *)
Abbreviation captures := (gmap nat str).

Section Regex.
Context (ucd : UCD).

Definition in_class (c : cclass) (x : N) : bool :=
  match c with
  | CDigit => isdecimal ucd x
  | CWord => isword ucd x
  | CSpace => isspace ucd x
  | CLit y => (x =? y)%N
  end.

Definition hi_allows (hi : option nat) : bool :=
  match hi with Some O => false | _ => true end.

Fixpoint rep {R} (p : N → bool) (lo : nat) (hi : option nat) (s : str)
    (k : str → option R) : option R :=
  let stop := match lo with O => k s | S _ => None end in
  match s with
  | c :: s' =>
      if p c && hi_allows hi then
        match rep p (pred lo) (pred <$> hi) s' k with
        | Some r => Some r
        | None => stop
        end
      else stop
  | [] => stop
  end.

Fixpoint rmatch (r : regex) (s : str) (caps : captures)
    (k : str → captures → option captures) : option captures :=
  match r with
  | RRep c lo hi => rep (in_class c) lo hi s (λ s', k s' caps)
  | RSeq r1 r2 => rmatch r1 s caps (λ s' caps', rmatch r2 s' caps' k)
  | ROpt r1 =>
      match rmatch r1 s caps k with
      | Some res => Some res
      | None => k s caps
      end
  | RGroup i r1 =>
      rmatch r1 s caps
        (λ s' caps', k s' (<[i := take (length s - length s') s]> caps'))
  end.

(** [re.search(r, s)]: the match at the leftmost position that has one. *)
Fixpoint re_search (r : regex) (s : str) : option captures :=
  match rmatch r s ∅ (λ _ caps, Some caps) with
  | Some caps => Some caps
  | None =>
      match s with
      | [] => None
      | _ :: s' => re_search r s'
      end
  end.
End Regex.

Definition lit (c : string) : cclass :=
  match str_of c with x :: _ => CLit x | [] => CLit 0%N end.

(** [(\d{1,2})\s+(\w+)\.?,?\s*(?:(\d{4}),?)?\s*(\d{1,2}:\d{2})] *)
Definition date_re : regex :=
  RSeq (RGroup 1 (RRep CDigit 1 (Some 2%nat)))
  (RSeq (RRep CSpace 1 None)
  (RSeq (RGroup 2 (RRep CWord 1 None))
  (RSeq (RRep (lit ".") 0 (Some 1%nat))
  (RSeq (RRep (lit ",") 0 (Some 1%nat))
  (RSeq (RRep CSpace 0 None)
  (RSeq (ROpt (RSeq (RGroup 3 (RRep CDigit 4 (Some 4%nat)))
                    (RRep (lit ",") 0 (Some 1%nat))))
  (RSeq (RRep CSpace 0 None)
        (RGroup 4 (RSeq (RRep CDigit 1 (Some 2%nat))
                  (RSeq (RRep (lit ":") 1 (Some 1%nat))
                        (RRep CDigit 2 (Some 2%nat)))))))))))).

(** ** Python built-ins on optional strings *)

Section Builtins.
Context (ucd : UCD).

Fixpoint int_digits (acc : Z) (s : str) : option Z :=
  match s with
  | [] => Some acc
  | c :: s' =>
      match decimal_value ucd c with
      | Some v => int_digits (10 * acc + v) s'
      | None => None
      end
  end.

(** [int(x)] on a run of decimal digits; [TypeError] on [None].  The
    scraper only passes digit runs captured by [\d] and the output of
    [str] on a year (see [date_re_groups] and [py_int_py_str]);
    any other string is rejected with [ValueError]. *)
Definition py_int (x : option str) : result Z :=
  match x with
  | None => Raise TypeError
  | Some [] => Raise ValueError
  | Some s =>
      match int_digits 0 s with
      | Some n => Ok n
      | None => Raise ValueError
      end
  end.

(** [x[:n]]; [TypeError] on [None]. *)
Definition py_prefix (n : nat) (x : option str) : result str :=
  match x with
  | None => Raise TypeError
  | Some s => Ok (take n s)
  end.

(** [not x] for an optional string: true on [None] and on the empty string. *)
Definition py_not (x : option str) : bool :=
  match x with
  | None | Some [] => true
  | Some _ => false
  end.
End Builtins.

Arguments py_int : simpl never.

Fixpoint digits_of (fuel : nat) (n : Z) (acc : str) : str :=
  let acc' := Z.to_N (48 + n mod 10) :: acc in
  match fuel with
  | O => acc'
  | S fuel' => if n <? 10 then acc' else digits_of fuel' (n / 10) acc'
  end.

(** [str(n)] for an integer. *)
Definition py_str (n : Z) : str :=
  if n <? 0 then 45%N :: digits_of (Z.to_nat (Z.log2 (- n))) (- n) []
  else digits_of (Z.to_nat (Z.log2 n)) n [].

Arguments py_str : simpl never.

(** [xs[i]] with a non-negative index; [IndexError] out of range. *)
Definition getitem {A} (xs : list A) (i : nat) : result A :=
  match xs !! i with
  | Some x => Ok x
  | None => Raise IndexError
  end.

(** ** [CTFEvent] *)

Record CTFEvent : Type := mk_CTFEvent {
  title : str;
  start_time : str;
  duration : str;
  url : str;
  format_type : str
}.

(** ** The parsed page

    [BeautifulSoup] is an external library; the model starts from what the
    scraper reads off the parsed tree. *)

(** The first [<a>] inside a cell: its text and its [href] attribute. *)
Record anchor : Type := { a_text : str; a_href : option str }.

(** A [<td>]: [cell.text] and [cell.find('a')]. *)
Record cell : Type := { td_text : str; td_link : option anchor }.

(** A [<tr>], as [row.find_all('td')]. *)
Definition row : Type := list cell.

(** The events table: the rows of its [<tbody>], when it has one, and all
    of its rows ([table.find_all('tr')]). *)
Record table : Type := { tbody_rows : option (list row); all_rows : list row }.

(** [soup.find('table', class_='table table-striped')] *)
Definition soup : Type := option table.

(** ** [CTFScraper] *)

Definition base_url : str := str_of "https://ctftime.org".
Definition events_url : str := base_url ++ str_of "/event/list/upcoming".

(** Outcome of a computation started on store [s]: the final store, or the
    exception that escaped. *)
Definition run {S A} (m : M S A) (s : S) : result S :=
  match m s with
  | (Ok _, s') => Ok s'
  | (Raise e, _) => Raise e
  end.

Definition month_table : list (str * Z) :=
  [(str_of "Jan", 1); (str_of "Feb", 2); (str_of "Mar", 3); (str_of "Apr", 4);
   (str_of "May", 5); (str_of "Jun", 6); (str_of "Jul", 7); (str_of "Aug", 8);
   (str_of "Sep", 9); (str_of "Oct", 10); (str_of "Nov", 11); (str_of "Dec", 12)].

(** The dictionary [month_names] of line 136. *)
Definition month_names : gmap str Z := list_to_map month_table.

Section Scraper.
Context (ucd : UCD).

(** Lines 92-103 of [parse_events]: the duration and the start text of a
    date column. *)
Definition parse_duration (date_text : str) : result str :=
  if contains em_dash date_text then
    let parts := split em_dash date_text in
    if (length parts =? 2)%nat then
      match getitem parts 0, getitem parts 1 with
      | Ok p0, Ok p1 =>
          let start_part := strip ucd p0 in
          let end_part := strip ucd p1 in
          Ok (start_part ++ str_of " to " ++ end_part)
      | Raise e, _ | _, Raise e => Raise e
      end
    else Ok (str_of "Unknown")
  else Ok (str_of "Unknown").

Definition parse_start_time (date_text : str) : result str :=
  if contains em_dash date_text then
    match getitem (split em_dash date_text) 0 with
    | Ok p0 => Ok (strip ucd p0)
    | Raise e => Raise e
    end
  else Ok date_text.

(** The body of the loop of [parse_events], lines 70-110. *)
Definition parse_row (r : row) : M (list CTFEvent) unit :=
  try_except
    (let cells := r in
     if (length cells <? 4)%nat then ret tt
     else
       let! title_cell := lift (getitem cells 0) in
       match td_link title_cell with
       | None => ret tt
       | Some title_link =>
           let title := strip ucd (a_text title_link) in
           let event_url := base_url ++ default [] (a_href title_link) in
           let! c1 := lift (getitem cells 1) in
           let date_text := strip ucd (td_text c1) in
           let! c2 := lift (getitem cells 2) in
           let format_type := strip ucd (td_text c2) in
           let! duration := lift (parse_duration date_text) in
           let! start_time := lift (parse_start_time date_text) in
           modify (λ events,
             events ++ [mk_CTFEvent title start_time duration event_url format_type])
       end)
    (λ _, ret tt).

(** Line 65: the rows the loop goes through. *)
Definition page_rows (t : table) : list row :=
  match tbody_rows t with
  | Some rs => rs
  | None => drop 1 (all_rows t)
  end.

Definition parse_events (page : soup) : result (list CTFEvent) :=
  match page with
  | None => Ok []
  | Some table => run (for_each (page_rows table) parse_row) []
  end.

(** [date_match.groups()] *)
Definition groups (caps : captures) : option str * option str * option str * option str :=
  (caps !! 1%nat, caps !! 2%nat, caps !! 3%nat, caps !! 4%nat).

(** Line 141: [month_names.get(month_str[:3], 1)]. *)
Definition month_number (month_str : option str) : result Z :=
  match py_prefix 3 month_str with
  | Ok key => Ok (default 1 (month_names !! key))
  | Raise e => Raise e
  end.

(** Lines 144-150: the year of a start text, as a string. *)
Definition resolve_year (now : datetime) (month : Z) (day year : option str)
    : result (option str) :=
  if py_not year then
    let current_year := Datetime.year (dt_date now) in
    match py_int ucd day with
    | Ok d =>
        match datetime_date current_year month d with
        | Ok event_date_this_year =>
            if date_lt event_date_this_year (dt_date now)
            then Ok (Some (py_str (current_year + 1)))
            else Ok (Some (py_str current_year))
        | Raise e => Raise e
        end
    | Raise e => Raise e
    end
  else Ok year.

(** Lines 133-152: from the groups of a match to [event_date]. *)
Definition resolve_start (now : datetime) (date_match : captures) : result date :=
  let '(day, month_str, year, time) := groups date_match in
  match month_number month_str with
  | Ok month =>
      match resolve_year now month day year with
      | Ok year =>
          match py_int ucd year, py_int ucd day with
          | Ok y, Ok d => datetime_date y month d
          | Raise e, _ | _, Raise e => Raise e
          end
      | Raise e => Raise e
      end
  | Raise e => Raise e
  end.

(** The body of the loop of [filter_upcoming_week_events], lines 124-163. *)
Definition filter_event (now week_end : datetime) (event : CTFEvent)
    : M (list CTFEvent) unit :=
  try_except
    (let time_str := start_time event in
     match re_search ucd date_re time_str with
     | Some date_match =>
         let! event_date := lift (resolve_start now date_match) in
         if date_le (dt_date now) event_date && date_le event_date (dt_date week_end)
         then modify (λ upcoming_events, upcoming_events ++ [event])
         else ret tt
     | None => ret tt
     end)
    (λ _, ret tt).

Definition filter_upcoming_week_events (now : datetime) (events : list CTFEvent)
    : result (list CTFEvent) :=
  run (let! week_end := lift (add_days now 7) in
       for_each events (filter_event now week_end)) [].
End Scraper.

(** ** [CTFBot]: the notification *)

Record field : Type := mk_field { f_name : str; f_value : str; f_inline : bool }.

Record Embed : Type := mk_Embed {
  e_title : str;
  e_description : str;
  e_color : Z;
  e_fields : list field;
  e_footer : option str
}.

Definition add_field (name value : str) (inline : bool) : M Embed unit :=
  modify (λ e, mk_Embed (e_title e) (e_description e) (e_color e)
                 (e_fields e ++ [mk_field name value inline]) (e_footer e)).

Definition set_footer (text : str) : M Embed unit :=
  modify (λ e, mk_Embed (e_title e) (e_description e) (e_color e)
                 (e_fields e) (Some text)).

Definition newline : N := 10%N.

(** The field of one event, lines 211-215. *)
Definition event_field (event : CTFEvent) : field :=
  mk_field
    (127919%N :: str_of " " ++ title event)
    (str_of "**Start:** " ++ start_time event ++ [newline]
     ++ str_of "**Duration:** " ++ duration event ++ [newline]
     ++ str_of "**Format:** " ++ format_type event ++ [newline]
     ++ str_of "[Event Link](" ++ url event ++ str_of ")")
    false.

(** The overflow note, lines 218-222, for [len(events) = n]. *)
Definition note_field (n : nat) : field :=
  mk_field
    (128221%N :: str_of " Note")
    (str_of "And " ++ py_str (Z.of_nat n - 10) ++ str_of " more CTFs! Check [CTFTime]("
     ++ events_url ++ str_of ") for the full list.")
    false.

(** [send_ctf_notification]: the embed handed to [channel.send]. *)
Definition send_ctf_notification (events : list CTFEvent) : result Embed :=
  run (let! u := for_each (take 10 events)
                   (λ event, add_field (f_name (event_field event))
                               (f_value (event_field event)) false) in
       let! u := (if (10 <? length events)%nat
                  then add_field (f_name (note_field (length events)))
                         (f_value (note_field (length events))) false
                  else ret tt) in
       set_footer (str_of "CTF Time Bot " ++ 8226%N :: str_of " Next 7 Days"))
    (mk_Embed (128681%N :: str_of " Upcoming CTFs This Week")
       (str_of "Here are the CTFs happening in the next 7 days!")
       65280 [] None).

(** ** [fetch_page] *)

(** What [await response.text()] does. *)
Inductive body_outcome : Type :=
  | BodyText (text : str)
  | BodyRaises (e : exn).

(** What [session.get] does: it raises, or it yields a response with a
    status code and a body still to be read. *)
Inductive http_outcome : Type :=
  | GetRaises (e : exn)
  | Response (status : Z) (body : body_outcome).

Definition read_body (b : body_outcome) : result str :=
  match b with
  | BodyText t => Ok t
  | BodyRaises e => Raise e
  end.

Definition fetch_page (net : http_outcome) : result str :=
  match
    try_except
      (match net with
       | GetRaises e => raise e
       | Response status body =>
           if status =? 200 then lift (read_body body) else ret []
       end)
      (λ _, ret []) tt
  with
  | (r, _) => r
  end.

(** ** [CTFBot]: the startup check and the commands

    What the bot does is the messages it hands to the chat platform and
    whether it closes the connection.  Delivery is the platform's: [deliver]
    says, for each message, whether [send] returns or raises.  The HTML
    parser ([BeautifulSoup(html, 'html.parser')] followed by the lookup of
    the table) and [str(e)] are parameters as well; the parser either
    builds a tree or rejects the markup, and [BeautifulSoup] then raises
    [ParserRejectedMarkup]. *)

Inductive parser_outcome : Type :=
  | Parsed (page : soup)
  | Rejected.

Inductive message : Type :=
  | Text (content : str)
  | EmbedMessage (embed : Embed).

Record bot_state : Type := mk_bot_state { outbox : list message; closed : bool }.

(** [xs[:limit]]: a negative [limit] counts from the end. *)
Definition slice_to {A} (limit : Z) (xs : list A) : list A :=
  if limit <? 0 then take (Z.to_nat (Z.of_nat (length xs) + limit)) xs
  else take (Z.to_nat limit) xs.

(** The embed of [next_ctfs], lines 266-280. *)
Definition next_ctfs_embed (limit : Z) (events : list CTFEvent) : result Embed :=
  run (let! u := for_each (slice_to limit events)
                   (λ event, add_field (f_name (event_field event))
                               (f_value (event_field event)) false) in
       set_footer (str_of "CTF Time Bot"))
    (mk_Embed (128681%N :: str_of " Next Upcoming CTFs")
       (str_of "Here are the next " ++ py_str (Z.min limit (Z.of_nat (length events)))
        ++ str_of " upcoming CTFs:")
       39423 [] None).

Definition checking_text : str :=
  128269%N :: str_of " Checking for upcoming CTFs in the next week...".
Definition fetch_failed_text : str := 10060%N :: str_of " Failed to fetch CTFTime page".
Definition no_week_text : str := 128197%N :: str_of " No CTFs found for the next week!".
Definition no_upcoming_text : str := 128197%N :: str_of " No upcoming CTFs found!".
Definition error_checking_text : str := 10060%N :: str_of " Error checking CTFs: ".
Definition error_fetching_text : str := 10060%N :: str_of " Error fetching CTFs: ".

Section Bot.
Context (ucd : UCD).
Context (html_parser : str → parser_outcome).
Context (deliver : message → result unit).
Context (exn_text : exn → str).

(** Line 55, the first statement of [parse_events(html)], outside the
    [try] of its loop. *)
Definition parse_html (html : str) : result soup :=
  match html_parser html with
  | Parsed page => Ok page
  | Rejected => Raise ParserRejectedMarkup
  end.

(** [await channel.send(...)] and [await ctx.send(...)] *)
Definition send (m : message) : M bot_state unit :=
  λ s, match deliver m with
       | Ok _ => (Ok tt, mk_bot_state (outbox s ++ [m]) (closed s))
       | Raise e => (Raise e, s)
       end.

(** [await bot.close()] *)
Definition close : M bot_state unit :=
  modify (λ s, mk_bot_state (outbox s) true).

(** [check_ctfs], lines 172-199; [channel_found] is the truth value of
    [self.bot.get_channel(CHANNEL_ID)]. *)
Definition check_ctfs (net : http_outcome) (now : datetime) (channel_found : bool)
    : M bot_state unit :=
  try_except
    (let! html := lift (fetch_page net) in
     match html with
     | [] => ret tt
     | _ :: _ =>
         let! page := lift (parse_html html) in
         let! all_events := lift (parse_events ucd page) in
         let! upcoming_events := lift (filter_upcoming_week_events ucd now all_events) in
         match upcoming_events with
         | [] => ret tt
         | _ :: _ =>
             if channel_found then
               let! embed := lift (send_ctf_notification upcoming_events) in
               send (EmbedMessage embed)
             else ret tt
         end
     end)
    (λ _, ret tt).

(** [manual_check], lines 229-249. *)
Definition manual_check (net : http_outcome) (now : datetime) : M bot_state unit :=
  let! u := send (Text checking_text) in
  try_except
    (let! html := lift (fetch_page net) in
     match html with
     | [] => send (Text fetch_failed_text)
     | _ :: _ =>
         let! page := lift (parse_html html) in
         let! all_events := lift (parse_events ucd page) in
         let! upcoming_events := lift (filter_upcoming_week_events ucd now all_events) in
         match upcoming_events with
         | _ :: _ =>
             let! embed := lift (send_ctf_notification upcoming_events) in
             send (EmbedMessage embed)
         | [] => send (Text no_week_text)
         end
     end)
    (λ e, send (Text (error_checking_text ++ exn_text e))).

(** [next_ctfs], lines 251-284. *)
Definition next_ctfs (net : http_outcome) (limit : Z) : M bot_state unit :=
  try_except
    (let! html := lift (fetch_page net) in
     match html with
     | [] => send (Text fetch_failed_text)
     | _ :: _ =>
         let! page := lift (parse_html html) in
         let! events := lift (parse_events ucd page) in
         match events with
         | [] => send (Text no_upcoming_text)
         | _ :: _ =>
             let! embed := lift (next_ctfs_embed limit events) in
             send (EmbedMessage embed)
         end
     end)
    (λ e, send (Text (error_fetching_text ++ exn_text e))).

(** [on_ready], lines 287-294; [cog_loaded] is the truth value of
    [bot.get_cog('CTFBot')]. *)
Definition on_ready (cog_loaded : bool) (net : http_outcome) (now : datetime)
    (channel_found : bool) : M bot_state unit :=
  let! u := (if cog_loaded then check_ctfs net now channel_found else ret tt) in
  close.
End Bot.

(** * Vocabulary of the properties *)

Section Vocabulary.
Context (ucd : UCD).

Definition within (hi : option nat) (n : nat) : Prop :=
  match hi with Some h => (n ≤ h)%nat | None => True end.

(** [matches r w c c']: the word [w] is in the language of [r], and
    matching it turns the captures [c] into [c']. *)
Fixpoint matches (r : regex) (w : str) (c c' : captures) : Prop :=
  match r with
  | RRep cl lo hi =>
      forallb (in_class ucd cl) w = true ∧ (lo ≤ length w)%nat
      ∧ within hi (length w) ∧ c' = c
  | RSeq r1 r2 =>
      ∃ w1 w2 c1, w = w1 ++ w2 ∧ matches r1 w1 c c1 ∧ matches r2 w2 c1 c'
  | ROpt r1 => matches r1 w c c' ∨ (w = [] ∧ c' = c)
  | RGroup i r1 => ∃ c1, matches r1 w c c1 ∧ c' = <[i := w]> c1
  end.

(** A string made of decimal digits only. *)
Definition digit_run (s : str) : Prop := forallb (isdecimal ucd) s = true.

(** The text contains an hour:minute token: a digit, a colon and two
    digits ("H:MM"; "HH:MM" contains one). *)
Fixpoint has_time_token (s : str) : bool :=
  match s with
  | [] => false
  | h :: rest =>
      isdecimal ucd h
      && match rest with
         | c :: m1 :: m2 :: _ => (c =? 58)%N && isdecimal ucd m1 && isdecimal ucd m2
         | _ => false
         end
      || has_time_token rest
  end.

(** The text contains a run of four decimal digits. *)
Fixpoint has_four_digits (s : str) : bool :=
  match s with
  | [] => false
  | a :: rest =>
      isdecimal ucd a
      && match rest with
         | b :: c :: d :: _ => isdecimal ucd b && isdecimal ucd c && isdecimal ucd d
         | _ => false
         end
      || has_four_digits rest
  end.

(** What one event contributes to the result of the filter: the test
    made by the loop body on the event, with an escaping exception of
    date resolution read as "skip". *)
Definition keeps (now week_end : datetime) (event : CTFEvent) : bool :=
  match re_search ucd date_re (start_time event) with
  | Some date_match =>
      match resolve_start ucd now date_match with
      | Ok event_date =>
          date_le (dt_date now) event_date && date_le event_date (dt_date week_end)
      | Raise _ => false
      end
  | None => false
  end.

(** [date_match.groups()] for a start text, when the pattern matches. *)
Definition date_groups (s : str)
    : option (option str * option str * option str * option str) :=
  groups <$> re_search ucd date_re s.

(** The outcome of computing [event_date] for a start text, when the
    pattern matches. *)
Definition event_date (now : datetime) (s : str) : option (result date) :=
  resolve_start ucd now <$> re_search ucd date_re s.

(** Date resolution fails on a start text: the pattern does not match,
    or building the date raises. *)
Definition resolution_fails (now : datetime) (s : str) : Prop :=
  match re_search ucd date_re s with
  | Some date_match => ∃ e, resolve_start ucd now date_match = Raise e
  | None => True
  end.

(** The events one row adds to an empty result. *)
Definition row_yield (r : row) : list CTFEvent := (parse_row ucd r []).2.

(** *** The resolved date, following the words of the specification *)

(** The month of an abbreviation: the entry of the 12-entry table whose
    key is the first three characters, January when there is none. *)
Definition spec_month (token : str) : Z :=
  match List.find (λ kv, bool_decide (kv.1 = take 3 token)) month_table with
  | Some kv => kv.2
  | None => 1
  end.

Definition spec_date (y m d : Z) : option date :=
  if valid_date y m d then Some (mk_date y m d) else None.

(** The year of a yearless start text. *)
Definition spec_roll_year (today : date) (m d : Z) : option Z :=
  candidate ← spec_date (year today) m d;
  Some (if date_lt candidate today then year today + 1 else year today).

Definition spec_resolved_date (today : date) (s : str) : option date :=
  caps ← re_search ucd date_re s;
  day ← caps !! 1%nat;
  d ← int_digits ucd 0 day;
  token ← caps !! 2%nat;
  let m := spec_month token in
  y ← match caps !! 3%nat with
      | Some year_text => int_digits ucd 0 year_text
      | None => spec_roll_year today m d
      end;
  spec_date y m d.

(** The event is retained: its resolved date lies in the closed interval
    from [today] to [last]. *)
Definition spec_retained (today last : date) (event : CTFEvent) : bool :=
  match spec_resolved_date today (start_time event) with
  | Some d => date_le today d && date_le d last
  | None => false
  end.
End Vocabulary.

(** A date whose fields passed [_check_date_fields]. *)
Definition date_valid (d : date) : bool := valid_date (year d) (month d) (day d).

(** The exception a request meets, if any: raised by [session.get] or
    while the body is read. *)
Definition transport_failure (net : http_outcome) : option exn :=
  match net with
  | GetRaises e => Some e
  | Response _ (BodyRaises e) => Some e
  | Response _ (BodyText _) => None
  end.

(** The fields of the embed, as the notifier is described: one per event
    for the first ten events, then the note when there are more. *)
Definition spec_fields (events : list CTFEvent) : list field :=
  (event_field <$> take 10 events)
  ++ (if (10 <? length events)%nat then [note_field (length events)] else []).

(** A date cell with two separators, and a row holding it. *)
Definition two_separator_text : str :=
  str_of "20 Aug., 10:00 UTC " ++ em_dash :: str_of " 21 Aug., 10:00 UTC "
  ++ em_dash :: str_of " 22 Aug. 2025, 10:00 UTC".

Definition text_cell (text : str) : cell := {| td_text := text; td_link := None |}.

Definition example_row (date_text : str) : row :=
  [ {| td_text := str_of "Example CTF";
       td_link := Some {| a_text := str_of "Example CTF";
                          a_href := Some (str_of "/event/1") |} |};
    text_cell date_text; text_cell (str_of "Jeopardy"); text_cell (str_of "On-line") ].

(** An ASCII start text as an event, and a fixed clock, for the examples. *)
Definition event_at (start : string) : CTFEvent :=
  mk_CTFEvent (str_of "Example CTF") (str_of start) (str_of "Unknown")
    (base_url ++ str_of "/event/1") (str_of "Jeopardy").

Definition now_2025_08_15 : datetime := mk_datetime (mk_date 2025 8 15) 0.
Definition now_2027_03_01 : datetime := mk_datetime (mk_date 2027 3 1) 0.
Definition week_end_2025_08_22 : datetime := mk_datetime (mk_date 2025 8 22) 0.

(** A date cell with one separator. *)
Definition one_separator_text : str :=
  str_of "20 Aug., 10:00 UTC " ++ em_dash :: str_of " 22 Aug. 2025, 10:00 UTC".

(** The event parsed from [example_row], given its start text and duration. *)
Definition example_event (start duration : str) : CTFEvent :=
  mk_CTFEvent (str_of "Example CTF") start duration
    (str_of "https://ctftime.org/event/1") (str_of "Jeopardy").

(** Inputs for the examples of the further properties: the groups of a
    start text, a page with one row, a platform that delivers everything,
    a response that succeeds. *)
Definition now_9999_12_24 : datetime := mk_datetime (mk_date 9999 12 24) 0.
Definition now_9999_12_25 : datetime := mk_datetime (mk_date 9999 12 25) 0.

Definition match_of (start : string) : captures :=
  default ∅ (re_search ascii_ucd date_re (str_of start)).
Definition example_page : soup :=
  Some {| tbody_rows := Some [example_row one_separator_text]; all_rows := [] |}.
Definition example_parser : str → parser_outcome := λ _, Parsed example_page.
Definition rejecting_parser : str → parser_outcome := λ _, Rejected.
Definition always_delivered : message → result unit := λ _, Ok tt.
Definition example_exn_text : exn → str := λ _, str_of "date value out of range".
Definition ok_response : http_outcome := Response 200 (BodyText (str_of "<html></html>")).
Definition idle_bot : bot_state := mk_bot_state [] false.
Definition parsed_example_event : CTFEvent :=
  example_event (str_of "20 Aug., 10:00 UTC")
    (str_of "20 Aug., 10:00 UTC to 22 Aug. 2025, 10:00 UTC").

(** * Properties *)

(** ** The monad *)

(** A loop whose body only appends to the store, and never raises, appends
    the contributions of the items in order. *)
Lemma for_each_appends {B E} (body : B → M (list E) unit) (f : B → list E) (xs : list B) :
  (∀ x s, body x s = (Ok tt, s ++ f x)) →
  ∀ s, for_each xs body s = (Ok tt, s ++ xs ≫= f).
Proof.
  intros Hbody. induction xs as [|x xs IH]; intros s; simpl.
  - unfold ret. by rewrite app_nil_r.
  - unfold bind. rewrite Hbody, IH. by rewrite (assoc_L (++)).
Qed.

(** ** The calendar: ordinals count days

    [fromordinal] inverts [toordinal], and the order of valid dates is the
    order of their ordinals, so that "seven days later" and the comparisons
    of the filter mean what they say. *)

Section Calendar.

Lemma days_before_year_decomp (n400 n100 n4 n1 : Z) :
  0 ≤ n100 ≤ 3 → 0 ≤ n4 ≤ 24 → 0 ≤ n1 ≤ 3 →
  days_before_year (n400 * 400 + n100 * 100 + n4 * 4 + n1 + 1)
  = n400 * 146097 + n100 * 36524 + n4 * 1461 + n1 * 365.
Proof.
  intros H100 H4 H1. unfold days_before_year. Z.div_mod_to_equations. lia.
Qed.

Lemma is_leap_decomp (n400 n100 n4 n1 : Z) :
  0 ≤ n100 ≤ 3 → 0 ≤ n4 ≤ 24 → 0 ≤ n1 ≤ 3 →
  is_leap (n400 * 400 + n100 * 100 + n4 * 4 + n1 + 1)
  = (n1 =? 3) && (negb (n4 =? 24) || (n100 =? 3)).
Proof.
  intros H100 H4 H1. unfold is_leap.
  repeat match goal with
         | |- context [?a =? ?b] => destruct (Z.eqb_spec a b)
         end; simpl; try reflexivity; exfalso; Z.div_mod_to_equations; lia.
Qed.

Ltac quotient q r a b :=
  let E := fresh "E" in let B := fresh "B" in
  pose proof (Z.div_mod a b ltac:(lia)) as E;
  pose proof (Z.mod_pos_bound a b ltac:(lia)) as B;
  set (q := a / b) in *; set (r := a mod b) in *;
  clearbody q r.

Lemma toordinal_fromordinal (n : Z) : 1 ≤ n → toordinal (fromordinal n) = n.
Proof.
  intros Hn. unfold fromordinal, DI400Y, DI100Y, DI4Y. cbv zeta.
  rewrite Z.shiftr_div_pow2 by lia. change (2 ^ 5) with 32.
  quotient n400 r0 (n - 1) 146097.
  quotient n100 r1 r0 36524.
  quotient n4 r2 r1 1461.
  quotient n1 r3 r2 365.
  assert (0 ≤ n100 ≤ 4 ∧ 0 ≤ n4 ≤ 24 ∧ 0 ≤ n1 ≤ 4) as (H100 & H4 & H1) by lia.
  destruct (Z.eqb_spec n1 4) as [->|Hn1]; [|destruct (Z.eqb_spec n100 4) as [->|Hn100]];
    cbn [orb].
  - assert (n4 ≤ 23 ∧ n100 ≤ 3) as [? ?] by lia.
    unfold toordinal, days_before_month. cbn [year month day DAYS_BEFORE_MONTH].
    replace (n400 * 400 + 1 + n100 * 100 + n4 * 4 + 4 - 1)
      with (n400 * 400 + n100 * 100 + n4 * 4 + 3 + 1) by lia.
    rewrite days_before_year_decomp, is_leap_decomp by lia.
    replace (n4 =? 24) with false by (symmetry; apply Z.eqb_neq; lia).
    simpl. lia.
  - unfold toordinal, days_before_month. cbn [year month day DAYS_BEFORE_MONTH].
    replace (n400 * 400 + 1 + 4 * 100 + n4 * 4 + n1 - 1)
      with (n400 * 400 + 3 * 100 + 24 * 4 + 3 + 1) by lia.
    rewrite days_before_year_decomp, is_leap_decomp by lia.
    simpl. lia.
  - quotient m rm (r3 + 50) 32.
    set (leapyear := (n1 =? 3) && (negb (n4 =? 24) || (n100 =? 3))).
    assert (is_leap (n400 * 400 + 1 + n100 * 100 + n4 * 4 + n1) = leapyear) as Hleap.
    { replace (n400 * 400 + 1 + n100 * 100 + n4 * 4 + n1)
        with (n400 * 400 + n100 * 100 + n4 * 4 + n1 + 1) by lia.
      apply is_leap_decomp; lia. }
    assert (days_before_year (n400 * 400 + 1 + n100 * 100 + n4 * 4 + n1)
            = n - 1 - r3) as Hdby.
    { replace (n400 * 400 + 1 + n100 * 100 + n4 * 4 + n1)
        with (n400 * 400 + n100 * 100 + n4 * 4 + n1 + 1) by lia.
      rewrite days_before_year_decomp; lia. }
    assert (m = 1 ∨ m = 2 ∨ m = 3 ∨ m = 4 ∨ m = 5 ∨ m = 6 ∨ m = 7 ∨ m = 8 ∨ m = 9
            ∨ m = 10 ∨ m = 11 ∨ m = 12) as Hm by lia.
    clearbody leapyear.
    repeat destruct Hm as [-> | Hm]; try subst m; destruct leapyear; cbn -[Z.add Z.sub Z.mul];
      match goal with
      | |- context [?a <? ?b] => destruct (Z.ltb_spec a b)
      end;
      unfold toordinal, days_before_month; cbn [year month day];
      rewrite Hdby, Hleap; simpl; lia.
Qed.

Lemma days_before_year_succ (y : Z) :
  days_before_year (y + 1) = days_before_year y + (if is_leap y then 366 else 365).
Proof.
  unfold days_before_year, is_leap.
  repeat match goal with
         | |- context [?a =? ?b] => destruct (Z.eqb_spec a b)
         end; simpl; Z.div_mod_to_equations; lia.
Qed.

Lemma days_before_year_mono (y y' : Z) : y ≤ y' → days_before_year y ≤ days_before_year y'.
Proof. intros H. unfold days_before_year. Z.div_mod_to_equations. lia. Qed.

Lemma month_cases (m : Z) :
  1 ≤ m ≤ 12 →
  m = 1 ∨ m = 2 ∨ m = 3 ∨ m = 4 ∨ m = 5 ∨ m = 6 ∨ m = 7 ∨ m = 8 ∨ m = 9
  ∨ m = 10 ∨ m = 11 ∨ m = 12.
Proof. lia. Qed.

Lemma date_valid_bounds (d : date) :
  date_valid d = true →
  1 ≤ year d ≤ 9999 ∧ 1 ≤ month d ≤ 12 ∧ 1 ≤ day d ≤ days_in_month (year d) (month d).
Proof.
  unfold date_valid, valid_date, MINYEAR, MAXYEAR. intros H.
  repeat (apply andb_prop in H as [H ?]). lia.
Qed.

(** The day of the year of a valid date. *)
Lemma day_of_year_bounds (d : date) :
  date_valid d = true →
  1 ≤ days_before_month (year d) (month d) + day d
    ≤ (if is_leap (year d) then 366 else 365).
Proof.
  intros (_ & Hm & Hd)%date_valid_bounds. revert Hd.
  unfold days_before_month, days_in_month.
  destruct (is_leap (year d)); apply month_cases in Hm;
    repeat destruct Hm as [-> | Hm]; try rewrite Hm; simpl; lia.
Qed.

Lemma day_of_year_lt (y m m' d d' : Z) :
  1 ≤ m → m < m' → m' ≤ 12 → d ≤ days_in_month y m → 1 ≤ d' →
  days_before_month y m + d < days_before_month y m' + d'.
Proof.
  intros H1 Hlt H12. unfold days_before_month, days_in_month.
  assert (1 ≤ m ≤ 12) as Hm by lia. assert (1 ≤ m' ≤ 12) as Hm' by lia.
  apply month_cases in Hm. apply month_cases in Hm'.
  destruct (is_leap y);
    repeat destruct Hm as [-> | Hm]; try subst m;
    repeat destruct Hm' as [-> | Hm']; try subst m'; simpl; lia.
Qed.

Lemma toordinal_lt (a b : date) :
  date_valid a = true → date_valid b = true →
  date_lt a b = true → toordinal a < toordinal b.
Proof.
  intros Ha Hb Hlt.
  pose proof (day_of_year_bounds a Ha) as Hda.
  pose proof (day_of_year_bounds b Hb) as Hdb.
  apply date_valid_bounds in Ha as (_ & Hma & Hdya).
  apply date_valid_bounds in Hb as (_ & Hmb & Hdyb).
  unfold toordinal. unfold date_lt in Hlt.
  destruct (Z.ltb_spec (year a) (year b)) as [Hy|Hy].
  - pose proof (days_before_year_succ (year a)) as Hs.
    pose proof (days_before_year_mono (year a + 1) (year b) ltac:(lia)). lia.
  - destruct (Z.eqb_spec (year a) (year b)) as [Hye|]; [|done]. simpl in Hlt.
    rewrite <- Hye in *.
    destruct (Z.ltb_spec (month a) (month b)) as [Hm|Hm].
    + pose proof (day_of_year_lt (year a) (month a) (month b) (day a) (day b)). lia.
    + destruct (Z.eqb_spec (month a) (month b)) as [Hme|]; [|done]. simpl in Hlt.
      rewrite Hme. apply Z.ltb_lt in Hlt. lia.
Qed.

Lemma date_le_toordinal (a b : date) :
  date_valid a = true → date_valid b = true →
  date_le a b = true ↔ toordinal a ≤ toordinal b.
Proof.
  intros Ha Hb. split.
  - unfold date_le. intros [Hlt | Heq]%orb_prop.
    + pose proof (toordinal_lt a b Ha Hb Hlt). lia.
    + unfold date_eqb in Heq. apply andb_prop in Heq as [Heq Hd].
      apply andb_prop in Heq as [Hy Hm].
      apply Z.eqb_eq in Hy, Hm, Hd. unfold toordinal. rewrite Hy, Hm, Hd. lia.
  - intros Hle. destruct (date_le a b) eqn:Hab; [done|]. exfalso.
    assert (date_lt b a = true) as Hlt.
    { unfold date_le, date_lt, date_eqb in *.
      repeat match goal with
             | H : context [?x <? ?y] |- _ => destruct (Z.ltb_spec x y)
             | H : context [?x =? ?y] |- _ => destruct (Z.eqb_spec x y)
             | |- context [?x <? ?y] => destruct (Z.ltb_spec x y)
             | |- context [?x =? ?y] => destruct (Z.eqb_spec x y)
             end; simpl in *; try done; lia. }
    pose proof (toordinal_lt b a Hb Ha Hlt). lia.
Qed.

Lemma fromordinal_valid (n : Z) :
  1 ≤ n ≤ MAXORDINAL → date_valid (fromordinal n) = true.
Proof.
  intros Hn. unfold MAXORDINAL in Hn.
  unfold fromordinal, DI400Y, DI100Y, DI4Y. cbv zeta.
  rewrite Z.shiftr_div_pow2 by lia. change (2 ^ 5) with 32.
  quotient n400 r0 (n - 1) 146097.
  quotient n100 r1 r0 36524.
  quotient n4 r2 r1 1461.
  quotient n1 r3 r2 365.
  assert (0 ≤ n400 ≤ 24 ∧ 0 ≤ n100 ≤ 4 ∧ 0 ≤ n4 ≤ 24 ∧ 0 ≤ n1 ≤ 4)
    as (H400 & H100 & H4 & H1) by lia.
  destruct (Z.eqb_spec n1 4) as [->|Hn1]; [|destruct (Z.eqb_spec n100 4) as [->|Hn100]];
    cbn [orb].
  - assert (n4 ≤ 23 ∧ n100 ≤ 3) as [? ?] by lia.
    unfold date_valid, valid_date, days_in_month, MINYEAR, MAXYEAR.
    cbn [year month day]. simpl. repeat (apply andb_true_intro; split); lia.
  - unfold date_valid, valid_date, days_in_month, MINYEAR, MAXYEAR.
    cbn [year month day]. simpl. repeat (apply andb_true_intro; split); lia.
  - quotient m rm (r3 + 50) 32.
    set (leapyear := (n1 =? 3) && (negb (n4 =? 24) || (n100 =? 3))).
    assert (is_leap (n400 * 400 + 1 + n100 * 100 + n4 * 4 + n1) = leapyear) as Hleap.
    { replace (n400 * 400 + 1 + n100 * 100 + n4 * 4 + n1)
        with (n400 * 400 + n100 * 100 + n4 * 4 + n1 + 1) by lia.
      apply is_leap_decomp; lia. }
    assert (1 ≤ n400 * 400 + 1 + n100 * 100 + n4 * 4 + n1 ≤ 9999) as Hy by lia.
    assert (leapyear = false → r3 < 365) as Hlast by lia.
    assert (m = 1 ∨ m = 2 ∨ m = 3 ∨ m = 4 ∨ m = 5 ∨ m = 6 ∨ m = 7 ∨ m = 8 ∨ m = 9
            ∨ m = 10 ∨ m = 11 ∨ m = 12) as Hm by lia.
    clearbody leapyear.
    repeat destruct Hm as [-> | Hm]; try subst m; destruct leapyear; simpl;
      match goal with
      | |- context [?a <? ?b] => destruct (Z.ltb_spec a b)
      end;
      unfold date_valid, valid_date, days_in_month, MINYEAR, MAXYEAR; cbn [year month day];
      rewrite Hleap; simpl; repeat (apply andb_true_intro; split); lia.
Qed.

End Calendar.

(** ** The matcher is sound for a declarative reading of the patterns *)

Section RegexSound.
Context (ucd : UCD).

Lemma rep_sound {R} (p : N → bool) (s : str) :
  ∀ lo hi (k : str → option R) res,
    rep p lo hi s k = Some res →
    ∃ w s', s = w ++ s' ∧ forallb p w = true ∧ (lo ≤ length w)%nat
            ∧ within hi (length w) ∧ k s' = Some res.
Proof.
  assert (Hstop : ∀ s lo hi (k : str → option R) res,
    match lo with O => k s | S _ => None end = Some res →
    ∃ w s', s = w ++ s' ∧ forallb p w = true ∧ (lo ≤ length w)%nat
            ∧ within hi (length w) ∧ k s' = Some res).
  { intros s0 [|lo] hi k res H; [|discriminate].
    exists [], s0. repeat split; auto. destruct hi; simpl; lia. }
  induction s as [|c s IH]; intros lo hi k res H; simpl in H.
  - by apply Hstop.
  - destruct (p c && hi_allows hi) eqn:Hc; [|by apply Hstop].
    destruct (rep p (pred lo) (pred <$> hi) s k) as [r|] eqn:Hrec; [|by apply Hstop].
    injection H as ->.
    apply andb_prop in Hc as [Hp Hhi].
    apply IH in Hrec as (w & s' & -> & Hall & Hlo & Hw & Hk).
    exists (c :: w), s'. simpl. rewrite Hp, Hall. repeat split; auto; [lia|].
    destruct hi as [[|h]|]; simpl in *; try discriminate; auto; lia.
Qed.

Lemma rmatch_sound (r : regex) :
  ∀ s c k res,
    rmatch ucd r s c k = Some res →
    ∃ w s' c', s = w ++ s' ∧ matches ucd r w c c' ∧ k s' c' = Some res.
Proof.
  induction r as [cl lo hi | r1 IH1 r2 IH2 | r1 IH1 | i r1 IH1];
    intros s c k res H; simpl in H.
  - apply rep_sound in H as (w & s' & -> & Hall & Hlo & Hw & Hk).
    exists w, s', c. simpl. repeat split; auto.
  - apply IH1 in H as (w1 & s1 & c1 & -> & Hm1 & H).
    apply IH2 in H as (w2 & s2 & c2 & -> & Hm2 & H).
    exists (w1 ++ w2), s2, c2. rewrite (assoc_L (++)). split; [done|].
    split; [|done]. simpl. eauto 10.
  - destruct (rmatch ucd r1 s c k) as [res'|] eqn:Hr.
    + injection H as ->. apply IH1 in Hr as (w & s' & c' & -> & Hm & Hk).
      exists w, s', c'. simpl. repeat split; auto.
    + exists [], s, c. simpl. repeat split; auto.
  - apply IH1 in H as (w & s' & c1 & -> & Hm & Hk).
    rewrite length_app in Hk.
    replace (length w + length s' - length s')%nat with (length w) in Hk by lia.
    rewrite take_app_length in Hk.
    exists w, s', (<[i := w]> c1). simpl. repeat split; eauto.
Qed.

Lemma re_search_sound (r : regex) (s : str) (caps : captures) :
  re_search ucd r s = Some caps →
  ∃ pre w post, s = pre ++ w ++ post ∧ matches ucd r w ∅ caps.
Proof.
  induction s as [|x s IH]; simpl.
  - destruct (rmatch ucd r [] ∅ _) as [c|] eqn:Hm; [|discriminate].
    intros [= ->]. apply rmatch_sound in Hm as (w & s' & c' & Hs & Hm & [= ->]).
    exists [], w, s'. auto.
  - destruct (rmatch ucd r (x :: s) ∅ _) as [c|] eqn:Hm.
    + intros [= ->]. apply rmatch_sound in Hm as (w & s' & c' & Hs & Hm & [= ->]).
      exists [], w, s'. split; [by subst|done].
    + intros H. apply IH in H as (pre & w & post & -> & Hm').
      exists (x :: pre), w, post. split; done.
Qed.
End RegexSound.

Section DateMatch.
Context (ucd : UCD).

Lemma date_re_groups (s : str) (caps : captures) :
  re_search ucd date_re s = Some caps →
  ∃ day mtok tm : str,
    caps !! 1%nat = Some day ∧ caps !! 2%nat = Some mtok ∧ caps !! 4%nat = Some tm
    ∧ digit_run ucd day ∧ (1 ≤ length day ≤ 2)%nat
    ∧ (caps !! 3%nat = None
       ∨ ∃ y pre post : str, caps !! 3%nat = Some y ∧ digit_run ucd y ∧ length y = 4%nat
                       ∧ s = pre ++ y ++ post)
    ∧ ∃ pre h mm post : str,
        s = pre ++ tm ++ post ∧ tm = h ++ 58%N :: mm
        ∧ digit_run ucd h ∧ (1 ≤ length h ≤ 2)%nat ∧ digit_run ucd mm ∧ length mm = 2%nat.
Proof.
  intros H. apply re_search_sound in H as (pre & w & post & -> & H).
  unfold date_re in H. cbn [matches within] in H.
  destruct H as (w1 & w2 & c1 & -> & (c2 & (Hd1 & Hl1 & Hh1 & ->) & ->)
    & w3 & w4 & c3 & -> & (_ & _ & _ & ->)
    & w5 & w6 & c4 & -> & (c5 & (_ & _ & _ & ->) & ->)
    & w7 & w8 & c6 & -> & (_ & _ & _ & ->)
    & w9 & w10 & c7 & -> & (_ & _ & _ & ->)
    & w11 & w12 & c8 & -> & (_ & _ & _ & ->)
    & w13 & w14 & c9 & -> & Hopt
    & w15 & w16 & c10 & -> & (_ & _ & _ & ->)
    & c11 & (w17 & w18 & c12 & -> & (Hh & Hhl1 & Hhl2 & ->)
             & w19 & w20 & c13 & -> & (Hcolon & Hc1 & Hc2 & ->)
             & Hmm & Hm1 & Hm2 & ->) & ->).
  assert (w19 = [58%N]) as ->.
  { destruct w19 as [|x [|? ?]]; simpl in *; try lia.
    rewrite andb_true_r in Hcolon. by apply N.eqb_eq in Hcolon as ->. }
  exists w1, w5, (w17 ++ [58%N] ++ w20).
  assert (Hpos : ∃ pre0 h mm post0,
    pre ++ (w1 ++ w3 ++ w5 ++ w7 ++ w9 ++ w11 ++ w13 ++ w15 ++ w17 ++ [58%N] ++ w20) ++ post
      = pre0 ++ (w17 ++ [58%N] ++ w20) ++ post0
    ∧ w17 ++ [58%N] ++ w20 = h ++ 58%N :: mm
    ∧ digit_run ucd h ∧ (1 ≤ length h ≤ 2)%nat ∧ digit_run ucd mm ∧ length mm = 2%nat).
  { exists (pre ++ w1 ++ w3 ++ w5 ++ w7 ++ w9 ++ w11 ++ w13 ++ w15), w17, w20, post.
    split; [by rewrite <- !app_assoc|]. repeat split; auto; lia. }
  destruct Hopt as [(wy & wc & c' & -> & (c'' & (Hy & Hy1 & Hy2 & ->) & ->) & _ & _ & _ & ->)
                   | [-> ->]].
  - repeat split; try done; try lia.
    right. exists wy, (pre ++ w1 ++ w3 ++ w5 ++ w7 ++ w9 ++ w11),
      (wc ++ w15 ++ (w17 ++ [58%N] ++ w20) ++ post).
    repeat split; try done; [lia|]. by rewrite <- !app_assoc.
  - repeat split; try done; try lia. by left.
Qed.

Lemma int_digits_total (s : str) :
  digit_run ucd s → ∀ acc, ∃ n, int_digits ucd acc s = Some n.
Proof.
  unfold digit_run. induction s as [|c s IH]; simpl; intros H acc; [eauto|].
  apply andb_prop in H as [Hc Hs]. unfold isdecimal in Hc.
  apply bool_decide_eq_true in Hc as [v Hv]. rewrite Hv. by apply IH.
Qed.

Lemma py_int_digit_run (s : str) :
  digit_run ucd s → s ≠ [] → ∃ n, py_int ucd (Some s) = Ok n.
Proof.
  intros Hs Hne. destruct (int_digits_total s Hs 0) as [n Hn].
  exists n. unfold py_int. rewrite Hn. by destruct s.
Qed.
End DateMatch.

(** ** [int(str(n)) = n] *)

Section IntStr.
Context (ucd : UCD).

Lemma int_digits_app (s1 s2 : str) :
  ∀ acc, int_digits ucd acc (s1 ++ s2) = int_digits ucd acc s1 ≫= λ v, int_digits ucd v s2.
Proof.
  induction s1 as [|c s1 IH]; intros acc; simpl; [done|].
  destruct (decimal_value ucd c); [apply IH | done].
Qed.

Lemma decimal_value_digit (r : Z) :
  0 ≤ r < 10 → decimal_value ucd (Z.to_N (48 + r)) = Some r.
Proof.
  intros Hr.
  assert (r = 0 ∨ r = 1 ∨ r = 2 ∨ r = 3 ∨ r = 4 ∨ r = 5 ∨ r = 6 ∨ r = 7 ∨ r = 8 ∨ r = 9)
    as Hcases by lia.
  repeat destruct Hcases as [-> | Hcases]; try subst r; reflexivity.
Qed.

Lemma digits_of_spec (fuel : nat) :
  ∀ n acc, 0 ≤ n < 10 ^ (Z.of_nat fuel + 1) →
    ∃ ds, digits_of fuel n acc = ds ++ acc ∧ ds ≠ []
          ∧ ∀ a, int_digits ucd a ds = Some (a * 10 ^ Z.of_nat (length ds) + n).
Proof.
  assert (Hone : ∀ n acc, 0 ≤ n < 10 →
    ∃ ds, Z.to_N (48 + n mod 10) :: acc = ds ++ acc ∧ ds ≠ []
          ∧ ∀ a, int_digits ucd a ds = Some (a * 10 ^ Z.of_nat (length ds) + n)).
  { intros n acc Hn. exists [Z.to_N (48 + n mod 10)]. repeat split; [done|].
    intros a. simpl. rewrite Z.mod_small by lia.
    rewrite decimal_value_digit by lia. f_equal. lia. }
  induction fuel as [|fuel IH]; intros n acc Hn.
  - simpl. apply Hone. simpl in Hn. lia.
  - cbn [digits_of]. destruct (n <? 10) eqn:Hlt.
    + apply Hone. lia.
    + apply Z.ltb_ge in Hlt.
      assert (0 ≤ n / 10 < 10 ^ (Z.of_nat fuel + 1)) as Hdiv.
      { split; [apply Z.div_pos; lia|]. apply Z.div_lt_upper_bound; [lia|].
        replace (Z.of_nat (S fuel) + 1) with (Z.succ (Z.of_nat fuel + 1)) in Hn by lia.
        rewrite Z.pow_succ_r in Hn by lia. lia. }
      destruct (IH (n / 10) (Z.to_N (48 + n mod 10) :: acc) Hdiv) as (ds & Heq & Hne & Hval).
      exists (ds ++ [Z.to_N (48 + n mod 10)]). split; [|split].
      * by rewrite Heq, <- app_assoc.
      * by destruct ds.
      * intros a. rewrite int_digits_app, Hval. simpl.
        rewrite decimal_value_digit by (apply Z.mod_pos_bound; lia).
        f_equal. rewrite length_app. simpl.
        replace (Z.of_nat (length ds + 1)) with (Z.succ (Z.of_nat (length ds))) by lia.
        rewrite Z.pow_succ_r by lia.
        pose proof (Z.div_mod n 10 ltac:(lia)). lia.
Qed.

Lemma py_int_py_str (n : Z) : 0 ≤ n → py_int ucd (Some (py_str n)) = Ok n.
Proof.
  intros Hn. unfold py_str. destruct (n <? 0) eqn:Hneg; [apply Z.ltb_lt in Hneg; lia|].
  assert (0 ≤ n < 10 ^ (Z.of_nat (Z.to_nat (Z.log2 n)) + 1)) as Hb.
  { split; [done|]. rewrite Z2Nat.id by apply Z.log2_nonneg.
    destruct (decide (n = 0)) as [->|Hnz]; [done|].
    pose proof (Z.log2_spec n ltac:(lia)) as [_ Hup].
    eapply Z.lt_le_trans; [exact Hup|].
    replace (Z.succ (Z.log2 n)) with (Z.log2 n + 1) by lia.
    apply Z.pow_le_mono_l. lia. }
  destruct (digits_of_spec _ n [] Hb) as (ds & Heq & Hne & Hval).
  rewrite Heq, app_nil_r. unfold py_int. rewrite Hval.
  destruct ds; [done|]. f_equal.
Qed.
End IntStr.

(** ** The filter, one event at a time *)

Lemma bind_if_filter {A} (f : A → bool) (xs : list A) :
  xs ≫= (λ x, if f x then [x] else []) = List.filter f xs.
Proof.
  induction xs as [|x xs IH]; [done|].
  change ((x :: xs) ≫= (λ x, if f x then [x] else []))
    with ((if f x then [x] else []) ++ xs ≫= (λ x, if f x then [x] else [])).
  rewrite IH. simpl. by destruct (f x).
Qed.

Lemma filter_sublist {A} (f : A → bool) (xs : list A) : sublist (List.filter f xs) xs.
Proof.
  induction xs as [|x xs IH]; simpl; [constructor|].
  destruct (f x); by constructor.
Qed.

Lemma list_to_map_lookup_find (l : list (str * Z)) (k : str) :
  (list_to_map l : gmap str Z) !! k
  = snd <$> List.find (λ kv, bool_decide (kv.1 = k)) l.
Proof.
  induction l as [|[a b] l IH]; simpl; [done|].
  rewrite lookup_insert. case_decide; case_bool_decide; simplify_eq; done.
Qed.

Section FilterEvent.
Context (ucd : UCD).

Lemma py_int_raises (x : option str) (e : exn) :
  py_int ucd x = Raise e → is_Exception e = true.
Proof. unfold py_int. intros H. repeat case_match; by simplify_eq. Qed.

Lemma resolve_start_raises (now : datetime) (caps : captures) (e : exn) :
  resolve_start ucd now caps = Raise e → is_Exception e = true.
Proof.
  unfold resolve_start, groups, month_number, py_prefix, resolve_year, datetime_date.
  intros H. repeat case_match; simplify_eq; eauto using py_int_raises.
Qed.

Lemma filter_event_keeps (now week_end : datetime) (event : CTFEvent) (s : list CTFEvent) :
  filter_event ucd now week_end event s
  = (Ok tt, s ++ if keeps ucd now week_end event then [event] else []).
Proof.
  unfold filter_event, keeps, try_except, bind, lift, modify, ret.
  destruct (re_search ucd date_re (start_time event)) as [caps|]; [|by rewrite app_nil_r].
  destruct (resolve_start ucd now caps) as [d|e] eqn:Hres.
  - destruct (date_le _ d && date_le d _); [done | by rewrite app_nil_r].
  - rewrite (resolve_start_raises _ _ _ Hres). by rewrite app_nil_r.
Qed.

Lemma filter_upcoming_week_events_keeps (now : datetime) (events : list CTFEvent) :
  filter_upcoming_week_events ucd now events
  = match add_days now 7 with
    | Ok week_end => Ok (List.filter (keeps ucd now week_end) events)
    | Raise e => Raise e
    end.
Proof.
  unfold filter_upcoming_week_events, run, bind, lift.
  destruct (add_days now 7) as [week_end|e]; [|done].
  rewrite (for_each_appends _ (λ ev, if keeps ucd now week_end ev then [ev] else [])).
  - by rewrite bind_if_filter.
  - intros ev s. apply filter_event_keeps.
Qed.

Lemma spec_month_lookup (token : str) :
  default 1 (month_names !! take 3 token) = spec_month token.
Proof.
  unfold month_names, spec_month. rewrite list_to_map_lookup_find.
  unfold str. by destruct (List.find (A := list N * Z) _ month_table).
Qed.

Lemma py_int_digits (s : str) (n : Z) :
  s ≠ [] → int_digits ucd 0 s = Some n → py_int ucd (Some s) = Ok n.
Proof. intros Hne Hn. unfold py_int. rewrite Hn. by destruct s. Qed.

(** On the groups of a match, the code and the specification resolve the
    same date, and the code raises exactly when the specification has
    no date. *)
Lemma resolve_start_spec (now : datetime) (s : str) (caps : captures) :
  re_search ucd date_re s = Some caps →
  match resolve_start ucd now caps with
  | Ok d => spec_resolved_date ucd (dt_date now) s = Some d
  | Raise _ => spec_resolved_date ucd (dt_date now) s = None
  end.
Proof.
  intros Hs. unfold spec_resolved_date. rewrite Hs. simpl.
  destruct (date_re_groups ucd s caps Hs)
    as (day & tok & tm & H1 & H2 & H4 & Hday & Hlen & H3 & _).
  assert (day ≠ []) as Hne by (destruct day; simpl in *; [lia|done]).
  destruct (int_digits_total ucd day Hday 0) as [d Hd].
  pose proof (py_int_digits day d Hne Hd) as Hpd.
  unfold resolve_start, groups, month_number, py_prefix.
  rewrite H1, H2. simpl. rewrite Hd. simpl.
  rewrite spec_month_lookup. set (m := spec_month tok).
  destruct H3 as [H3 | (ys & ? & ? & H3 & Hys & Hylen & _)]; rewrite H3; simpl.
  - unfold resolve_year, spec_roll_year, spec_date, datetime_date. simpl.
    rewrite Hpd. destruct (valid_date (year (dt_date now)) m d) eqn:Hv; simpl; [|done].
    assert (1 ≤ year (dt_date now)) as Hy.
    { unfold valid_date, MINYEAR in Hv. repeat (apply andb_prop in Hv as [Hv ?]). lia. }
    destruct (date_lt _ _).
    + rewrite py_int_py_str by lia. by destruct (valid_date (_ + 1) m d).
    + rewrite py_int_py_str by lia. by rewrite Hv.
  - assert (ys ≠ []) as Hyne by (destruct ys; simpl in *; [lia|done]).
    destruct (int_digits_total ucd ys Hys 0) as [y Hy].
    unfold resolve_year. destruct ys as [|c ys]; [done|]. simpl py_not. cbv iota.
    rewrite (py_int_digits _ y Hyne Hy), Hpd, Hy. simpl.
    unfold spec_date, datetime_date. by destruct (valid_date y m d).
Qed.

Lemma keeps_spec_retained (now week_end : datetime) (event : CTFEvent) :
  keeps ucd now week_end event
  = spec_retained ucd (dt_date now) (dt_date week_end) event.
Proof.
  unfold keeps, spec_retained.
  destruct (re_search ucd date_re (start_time event)) as [caps|] eqn:Hs.
  - pose proof (resolve_start_spec now _ _ Hs) as H.
    destruct (resolve_start ucd now caps); by rewrite H.
  - unfold spec_resolved_date. by rewrite Hs.
Qed.
Lemma spec_resolved_date_valid (today : date) (s : str) (d : date) :
  spec_resolved_date ucd today s = Some d → date_valid d = true.
Proof.
  unfold spec_resolved_date. intros H.
  repeat match type of H with
         | (?o ≫= _) = Some _ => destruct o; simpl in H; [|done]
         end.
  unfold spec_date in H. destruct (valid_date _ _ _) eqn:Hv; [|done].
  by injection H as <-.
Qed.

(** The window of the filter is the dates at most seven days after today. *)
Lemma window_is_seven_days (now week_end : datetime) (d : date) :
  date_valid (dt_date now) = true →
  add_days now 7 = Ok week_end →
  date_valid d = true →
  date_le (dt_date now) d && date_le d (dt_date week_end) = true
  ↔ toordinal (dt_date now) ≤ toordinal d ≤ toordinal (dt_date now) + 7.
Proof.
  intros Hnow Hweek Hd. unfold add_days in Hweek.
  destruct (_ && _) eqn:Hrange; [|done]. injection Hweek as <-.
  apply andb_prop in Hrange as [Hlo Hhi]. apply Z.ltb_lt in Hlo. apply Z.leb_le in Hhi.
  cbn [dt_date].
  rewrite andb_true_iff, !date_le_toordinal, toordinal_fromordinal by
    (try done; try apply fromordinal_valid; lia).
  done.
Qed.
End FilterEvent.

(** ** Splitting the date column *)

Lemma contains_elem_of (sep : N) (s : str) : contains sep s = true ↔ sep ∈ s.
Proof.
  unfold contains. induction s as [|c s IH]; simpl.
  - split; [done | by intros ?%elem_of_nil].
  - by rewrite orb_true_iff, elem_of_cons, N.eqb_eq, IH.
Qed.

Lemma contains_not_elem_of (sep : N) (s : str) : contains sep s = false ↔ sep ∉ s.
Proof. rewrite <- contains_elem_of. by destruct (contains sep s). Qed.

Lemma split_nonempty (sep : N) (s : str) : ∃ p ps, split sep s = p :: ps.
Proof.
  induction s as [|c s (p & ps & Hp)]; simpl; [eauto|].
  destruct (c =? sep)%N; [eauto|]. rewrite Hp. eauto.
Qed.

Lemma split_no_sep (sep : N) (s : str) : sep ∉ s → split sep s = [s].
Proof.
  induction s as [|c s IH]; simpl; [done|].
  intros [Hc Hs]%not_elem_of_cons. rewrite IH by done.
  destruct (c =? sep)%N eqn:E; [|done]. apply N.eqb_eq in E. congruence.
Qed.

Lemma split_at_first (sep : N) (a b : str) :
  sep ∉ a → split sep (a ++ sep :: b) = a :: split sep b.
Proof.
  induction a as [|c a IH]; simpl.
  - by rewrite N.eqb_refl.
  - intros [Hc Ha]%not_elem_of_cons. rewrite IH by done.
    destruct (c =? sep)%N eqn:E; [|done]. apply N.eqb_eq in E. congruence.
Qed.

Lemma split_length_sep (sep : N) (s : str) : sep ∈ s → (2 ≤ length (split sep s))%nat.
Proof.
  induction s as [|c s IH]; [by intros ?%elem_of_nil|]. simpl.
  destruct (split_nonempty sep s) as (p & ps & Hp).
  destruct (c =? sep)%N eqn:E.
  - rewrite Hp. simpl. lia.
  - intros [->|Hs]%elem_of_cons; [by rewrite N.eqb_refl in E|].
    specialize (IH Hs). rewrite Hp in IH |- *. simpl in *. lia.
Qed.

Section ParseRow.
Context (ucd : UCD).

Lemma parse_start_time_first (a b : str) :
  em_dash ∉ a → parse_start_time ucd (a ++ em_dash :: b) = Ok (strip ucd a).
Proof.
  intros Ha. unfold parse_start_time.
  assert (contains em_dash (a ++ em_dash :: b) = true) as ->.
  { apply contains_elem_of. set_solver. }
  by rewrite split_at_first.
Qed.

Lemma parse_start_time_whole (s : str) :
  em_dash ∉ s → parse_start_time ucd s = Ok s.
Proof.
  intros Hs. unfold parse_start_time.
  by apply contains_not_elem_of in Hs as ->.
Qed.

Lemma parse_duration_once (a b : str) :
  em_dash ∉ a → em_dash ∉ b →
  parse_duration ucd (a ++ em_dash :: b)
  = Ok (strip ucd a ++ str_of " to " ++ strip ucd b).
Proof.
  intros Ha Hb. unfold parse_duration.
  assert (contains em_dash (a ++ em_dash :: b) = true) as ->.
  { apply contains_elem_of. set_solver. }
  by rewrite split_at_first, split_no_sep.
Qed.

Lemma parse_duration_twice (a b : str) :
  em_dash ∉ a → em_dash ∈ b →
  parse_duration ucd (a ++ em_dash :: b) = Ok (str_of "Unknown").
Proof.
  intros Ha Hb. unfold parse_duration.
  assert (contains em_dash (a ++ em_dash :: b) = true) as ->.
  { apply contains_elem_of. set_solver. }
  rewrite split_at_first by done.
  pose proof (split_length_sep em_dash b Hb) as Hlen.
  destruct (split em_dash b) as [|p1 [|p2 ps]]; simpl in *; try lia; done.
Qed.

Lemma parse_duration_none (s : str) :
  em_dash ∉ s → parse_duration ucd s = Ok (str_of "Unknown").
Proof.
  intros Hs. unfold parse_duration.
  by apply contains_not_elem_of in Hs as ->.
Qed.

(** Every text has a first occurrence of the separator, or none. *)
Lemma first_separator (s : str) :
  em_dash ∉ s ∨ ∃ a b, s = a ++ em_dash :: b ∧ em_dash ∉ a.
Proof.
  induction s as [|c s [IH | (a & b & -> & Ha)]].
  - left. by intros ?%elem_of_nil.
  - destruct (decide (c = em_dash)) as [->|Hc].
    + right. exists [], s. split; [done | by intros ?%elem_of_nil].
    + left. by intros [?|?]%elem_of_cons.
  - right. destruct (decide (c = em_dash)) as [->|Hc].
    + exists [], (a ++ em_dash :: b). split; [done | by intros ?%elem_of_nil].
    + exists (c :: a), b. split; [done | by intros [?|?]%elem_of_cons].
Qed.

Lemma parse_duration_ok (s : str) : ∃ d, parse_duration ucd s = Ok d.
Proof.
  destruct (first_separator s) as [Hs | (a & b & -> & Ha)].
  - rewrite parse_duration_none; eauto.
  - destruct (decide (em_dash ∈ b)).
    + rewrite parse_duration_twice; eauto.
    + rewrite parse_duration_once; eauto.
Qed.

Lemma parse_start_time_ok (s : str) : ∃ t, parse_start_time ucd s = Ok t.
Proof.
  destruct (first_separator s) as [Hs | (a & b & -> & Ha)].
  - rewrite parse_start_time_whole; eauto.
  - rewrite parse_start_time_first; eauto.
Qed.

(** A row with four cells and a link in the first one adds one event. *)
Lemma parse_row_event (c0 c1 c2 c3 : cell) (rest : row) (a : anchor) (s : list CTFEvent) :
  td_link c0 = Some a →
  ∃ st dur,
    parse_start_time ucd (strip ucd (td_text c1)) = Ok st
    ∧ parse_duration ucd (strip ucd (td_text c1)) = Ok dur
    ∧ parse_row ucd (c0 :: c1 :: c2 :: c3 :: rest) s
      = (Ok tt, s ++ [mk_CTFEvent (strip ucd (a_text a)) st dur
                        (base_url ++ default [] (a_href a))
                        (strip ucd (td_text c2))]).
Proof.
  intros Ha.
  destruct (parse_start_time_ok (strip ucd (td_text c1))) as [st Hst].
  destruct (parse_duration_ok (strip ucd (td_text c1))) as [dur Hdur].
  exists st, dur. split; [done|]. split; [done|].
  unfold parse_row, try_except, bind, lift, modify, ret, getitem. simpl.
  by rewrite Ha, Hdur, Hst.
Qed.

(** Any other row adds nothing. *)
Lemma parse_row_skip (r : row) (s : list CTFEvent) :
  (length r < 4)%nat ∨ (∃ c0, r !! 0%nat = Some c0 ∧ td_link c0 = None) →
  parse_row ucd r s = (Ok tt, s).
Proof.
  intros H. unfold parse_row, try_except, bind, lift, modify, ret, getitem.
  destruct (length r <? 4)%nat eqn:Hlen; [done|].
  apply Nat.ltb_ge in Hlen.
  destruct H as [H | (c0 & Hc0 & Hlink)]; [lia|].
  destruct r as [|c r']; [done|]. injection Hc0 as ->. simpl.
  by rewrite Hlink.
Qed.

(** Rows are independent: a row adds its own yield to whatever the
    earlier rows produced, and never raises. *)
Lemma parse_row_yield (r : row) (s : list CTFEvent) :
  parse_row ucd r s = (Ok tt, s ++ row_yield ucd r).
Proof.
  unfold row_yield.
  destruct (decide (length r < 4)%nat) as [Hlen|Hlen].
  { rewrite !parse_row_skip by auto. simpl. by rewrite app_nil_r. }
  destruct r as [|c0 [|c1 [|c2 [|c3 rest]]]]; simpl in Hlen; try lia.
  destruct (td_link c0) as [a|] eqn:Ha.
  - destruct (parse_row_event c0 c1 c2 c3 rest a s Ha) as (st & dur & Hst & Hdur & ->).
    destruct (parse_row_event c0 c1 c2 c3 rest a [] Ha) as (st' & dur' & Hst' & Hdur' & ->).
    simpl. congruence.
  - rewrite !parse_row_skip by (right; eauto). simpl. by rewrite app_nil_r.
Qed.

Lemma parse_events_yield (t : table) :
  parse_events ucd (Some t) = Ok (page_rows t ≫= row_yield ucd).
Proof.
  unfold parse_events, run.
  by rewrite (for_each_appends _ (row_yield ucd)) by apply parse_row_yield.
Qed.
End ParseRow.

(** * The claims *)

Section Claims.
Context (ucd : UCD).

(** ** Year resolution *)

Lemma has_four_digits_intro (pre post : str) (a b c d : N) :
  isdecimal ucd a = true → isdecimal ucd b = true →
  isdecimal ucd c = true → isdecimal ucd d = true →
  has_four_digits ucd (pre ++ a :: b :: c :: d :: post) = true.
Proof.
  intros Ha Hb Hc Hd. induction pre as [|x pre IH].
  - simpl. by rewrite Ha, Hb, Hc, Hd.
  - change ((x :: pre) ++ ?l) with (x :: (pre ++ l)).
    cbn [has_four_digits]. rewrite IH. apply orb_true_r.
Qed.

(** The groups of a match: day and month token are always present, the
    day is a number, and a year group implies four digits in the text. *)
Lemma date_groups_shape (s : str) gs :
  date_groups ucd s = Some gs →
  ∃ day token year tm d m,
    gs = (Some day, Some token, year, tm)
    ∧ py_int ucd (Some day) = Ok d
    ∧ month_number (Some token) = Ok m
    ∧ (has_four_digits ucd s = false → year = None).
Proof.
  unfold date_groups. destruct (re_search ucd date_re s) as [caps|] eqn:Hs; [|done].
  intros [= <-].
  destruct (date_re_groups ucd s caps Hs)
    as (day & tok & tm & H1 & H2 & H4 & Hday & Hlen & H3 & _).
  assert (day ≠ []) as Hne by (destruct day; simpl in *; [lia|done]).
  destruct (py_int_digit_run ucd day Hday Hne) as [d Hd].
  exists day, tok, (caps !! 3%nat), (Some tm), d, (default 1 (month_names !! take 3 tok)).
  unfold groups. rewrite H1, H2, H4. repeat split; [done|].
  intros Hno. destruct H3 as [H3 | (y & pre & post & H3 & Hy & Hylen & ->)]; [done|].
  destruct y as [|a [|b [|c [|e [|? ?]]]]]; simpl in Hylen; try lia.
  unfold digit_run in Hy. simpl in Hy.
  repeat (apply andb_prop in Hy as [? Hy]).
  simpl in Hno. by rewrite has_four_digits_intro in Hno.
Qed.

(** C1, as amended. When the pattern matches a start text and its year
    group is absent (as it is when the text has no run of four digits),
    and the parsed month and day form a valid date in the current year,
    the year is resolved from that candidate date: the event date is the
    same month and day in the next year if the candidate is strictly
    before today, and in the current year otherwise.  When they do not
    form a valid date in the current year, building the candidate raises
    [ValueError] and no year is resolved.  With today = 2025-08-15,
    "20 Aug., 10:00 UTC" resolves to 2025-08-20 and "5 Jan., 10:00 UTC"
    to 2026-01-05. *)
Theorem yearless_start_rolls_forward :
  (∀ (now : datetime) (s day token : str) (tm : option str) (d m : Z) (candidate : date),
      date_groups ucd s = Some (Some day, Some token, None, tm) →
      py_int ucd (Some day) = Ok d →
      month_number (Some token) = Ok m →
      datetime_date (year (dt_date now)) m d = Ok candidate →
      let resolved_year :=
        if date_lt candidate (dt_date now)
        then year (dt_date now) + 1 else year (dt_date now) in
      resolve_year ucd now m (Some day) None = Ok (Some (py_str resolved_year))
      ∧ event_date ucd now s = Some (datetime_date resolved_year m d))
  ∧ (∀ (now : datetime) (s day token : str) (tm : option str) (d m : Z) (e : exn),
      date_groups ucd s = Some (Some day, Some token, None, tm) →
      py_int ucd (Some day) = Ok d →
      month_number (Some token) = Ok m →
      datetime_date (year (dt_date now)) m d = Raise e →
      resolve_year ucd now m (Some day) None = Raise ValueError
      ∧ event_date ucd now s = Some (Raise ValueError))
  ∧ (∀ (s : str) gs,
       date_groups ucd s = Some gs →
       ∃ day token year tm d m,
         gs = (Some day, Some token, year, tm)
         ∧ py_int ucd (Some day) = Ok d
         ∧ month_number (Some token) = Ok m
         ∧ (has_four_digits ucd s = false → year = None))
  ∧ date_groups ucd (str_of "20 Aug., 10:00 UTC")
    = Some (Some (str_of "20"), Some (str_of "Aug"), None, Some (str_of "10:00"))
  ∧ event_date ucd now_2025_08_15 (str_of "20 Aug., 10:00 UTC")
    = Some (Ok (mk_date 2025 8 20))
  ∧ date_groups ucd (str_of "5 Jan., 10:00 UTC")
    = Some (Some (str_of "5"), Some (str_of "Jan"), None, Some (str_of "10:00"))
  ∧ event_date ucd now_2025_08_15 (str_of "5 Jan., 10:00 UTC")
    = Some (Ok (mk_date 2026 1 5)).
Proof.
  split; [|split; [|split; [apply date_groups_shape
                           | repeat split; vm_compute; reflexivity]]].
  2: { intros now s day token tm d m e Hg Hd Hm Hc.
       assert (e = ValueError) as ->.
       { unfold datetime_date in Hc. destruct (valid_date _ m d); congruence. }
       assert (resolve_year ucd now m (Some day) None = Raise ValueError) as Hry.
       { unfold resolve_year. simpl. by rewrite Hd, Hc. }
       split; [done|].
       unfold date_groups in Hg. unfold event_date.
       destruct (re_search ucd date_re s) as [caps|]; [|done].
       change (Some (groups caps) = Some (Some day, Some token, None, tm)) in Hg.
       apply (inj Some) in Hg. simpl. f_equal.
       unfold resolve_start. by rewrite Hg, Hm, Hry. }
  intros now s day token tm d m candidate Hg Hd Hm Hc resolved_year.
  assert (1 ≤ year (dt_date now)) as Hy.
  { unfold datetime_date in Hc.
    destruct (valid_date _ m d) eqn:Hv; [|done].
    unfold valid_date, MINYEAR in Hv. repeat (apply andb_prop in Hv as [Hv ?]). lia. }
  assert (resolve_year ucd now m (Some day) None = Ok (Some (py_str resolved_year))) as Hry.
  { unfold resolve_year. simpl. rewrite Hd, Hc. subst resolved_year.
    by destruct (date_lt candidate (dt_date now)). }
  split; [done|].
  unfold date_groups in Hg. unfold event_date.
  destruct (re_search ucd date_re s) as [caps|]; [|done].
  change (Some (groups caps) = Some (Some day, Some token, None, tm)) in Hg.
  apply (inj Some) in Hg. simpl. f_equal.
  unfold resolve_start. rewrite Hg, Hm, Hry.
  rewrite py_int_py_str, Hd; [done|]. subst resolved_year.
  destruct (date_lt candidate (dt_date now)); lia.
Qed.

(** ** The seven-day window *)

(** C2. With [week_end] the clock reading plus seven days, the filter
    returns exactly the events whose resolved start date [d] satisfies
    today <= d <= today + 7 days, both ends included, and the result is
    an order-preserving subsequence of the input. *)
Theorem filter_keeps_events_in_window
    (now week_end : datetime) (events : list CTFEvent) :
  add_days now 7 = Ok week_end →
  let today := dt_date now in
  let last := dt_date week_end in
  let kept := List.filter (spec_retained ucd today last) events in
  last = fromordinal (toordinal today + 7)
  ∧ filter_upcoming_week_events ucd now events = Ok kept
  ∧ sublist kept events
  ∧ (∀ event, event ∈ kept ↔
       event ∈ events
       ∧ ∃ d, spec_resolved_date ucd today (start_time event) = Some d
              ∧ date_le today d = true ∧ date_le d last = true)
  ∧ (date_valid today = true →
     ∀ event, event ∈ kept ↔
       event ∈ events
       ∧ ∃ d, spec_resolved_date ucd today (start_time event) = Some d
              ∧ toordinal today ≤ toordinal d ≤ toordinal today + 7).
Proof.
  intros Hweek today last kept.
  assert (∀ event, event ∈ kept ↔
            event ∈ events
            ∧ ∃ d, spec_resolved_date ucd today (start_time event) = Some d
                   ∧ date_le today d = true ∧ date_le d last = true) as Hkept.
  { intros event. subst kept.
    rewrite list_elem_of_In, filter_In, <- list_elem_of_In.
    unfold spec_retained.
    destruct (spec_resolved_date ucd today (start_time event)) as [d|].
    - rewrite andb_true_iff. split.
      + intros (? & ? & ?). eauto 6.
      + intros (? & d' & [= <-] & ? & ?). auto.
    - split; [by intros [_ ?] | by intros (_ & d & ? & _)]. }
  split; [|split; [|split; [|split; [exact Hkept|]]]].
  - unfold add_days in Hweek. subst last today.
    destruct (_ && _); [|done]. by injection Hweek as <-.
  - rewrite filter_upcoming_week_events_keeps, Hweek. f_equal.
    subst kept. clear. induction events as [|e events IH]; [done|]. simpl.
    by rewrite keeps_spec_retained, IH.
  - apply filter_sublist.
  - intros Hvalid event. rewrite Hkept.
    split; intros (Hin & d & Hd & Hwin); (split; [done|]); exists d; (split; [done|]).
    + apply (window_is_seven_days now week_end d Hvalid Hweek);
        [by eapply spec_resolved_date_valid | by apply andb_true_iff].
    + apply andb_true_iff.
      apply (window_is_seven_days now week_end d Hvalid Hweek);
        [by eapply spec_resolved_date_valid | done].
Qed.

(** ** Failures of date resolution *)

(** C7. An event whose start text fails date resolution (the pattern
    does not match, or building the date raises) is left out of the
    result, the filter returns normally, and the events before and after
    it are retained exactly as they are without it. *)
Theorem unresolvable_event_is_skipped
    (now week_end : datetime) (before after : list CTFEvent) (event : CTFEvent) :
  add_days now 7 = Ok week_end →
  resolution_fails ucd now (start_time event) →
  ∃ kept_before kept_after,
    filter_upcoming_week_events ucd now before = Ok kept_before
    ∧ filter_upcoming_week_events ucd now after = Ok kept_after
    ∧ filter_upcoming_week_events ucd now (before ++ event :: after)
      = Ok (kept_before ++ kept_after)
    ∧ filter_upcoming_week_events ucd now (before ++ after)
      = Ok (kept_before ++ kept_after).
Proof.
  intros Hweek Hfail.
  exists (List.filter (keeps ucd now week_end) before),
         (List.filter (keeps ucd now week_end) after).
  rewrite !filter_upcoming_week_events_keeps, Hweek.
  assert (keeps ucd now week_end event = false) as Hskip.
  { unfold keeps. unfold resolution_fails in Hfail.
    destruct (re_search ucd date_re (start_time event)); [|done].
    by destruct Hfail as [e ->]. }
  repeat split; rewrite ?List.filter_app; simpl; by rewrite ?Hskip.
Qed.

(** ** The time token is mandatory *)

Lemma has_time_token_intro (pre post : str) (h m1 m2 : N) :
  isdecimal ucd h = true → isdecimal ucd m1 = true → isdecimal ucd m2 = true →
  has_time_token ucd (pre ++ h :: 58%N :: m1 :: m2 :: post) = true.
Proof.
  intros Hh H1 H2. induction pre as [|c pre IH].
  - simpl. by rewrite Hh, H1, H2.
  - change ((c :: pre) ++ ?l) with (c :: (pre ++ l)).
    cbn [has_time_token]. rewrite IH. apply orb_true_r.
Qed.

(** [has_time_token] finds exactly the texts with a digit, a colon and two
    digits in a row. *)
Lemma has_time_token_spec (s : str) :
  has_time_token ucd s = true
  ↔ ∃ (pre post : str) (h m1 m2 : N),
      s = pre ++ h :: 58%N :: m1 :: m2 :: post
      ∧ isdecimal ucd h = true ∧ isdecimal ucd m1 = true ∧ isdecimal ucd m2 = true.
Proof.
  split.
  - induction s as [|c s IH]; simpl; [done|].
    intros [Hhere | Hlater]%orb_prop.
    + apply andb_prop in Hhere as [Hc Hrest].
      destruct s as [|x [|m1 [|m2 post]]]; try done.
      apply andb_prop in Hrest as [Hrest H2]. apply andb_prop in Hrest as [Hx H1].
      apply N.eqb_eq in Hx as ->. by exists [], post, c, m1, m2.
    + destruct (IH Hlater) as (pre & post & h & m1 & m2 & -> & Hh & H1 & H2).
      by exists (c :: pre), post, h, m1, m2.
  - intros (pre & post & h & m1 & m2 & -> & Hh & H1 & H2).
    by apply has_time_token_intro.
Qed.

Lemma date_re_needs_time_token (s : str) :
  has_time_token ucd s = false → re_search ucd date_re s = None.
Proof.
  intros Hno. destruct (re_search ucd date_re s) as [caps|] eqn:Hs; [|done].
  destruct (date_re_groups ucd s caps Hs)
    as (_ & _ & tm & _ & _ & _ & _ & _ & _ & pre & h & mm & post & -> & -> & Hh & Hhl & Hm & Hml).
  destruct mm as [|m1 [|m2 [|? ?]]]; simpl in Hml; try lia.
  unfold digit_run in *. simpl in Hm.
  apply andb_prop in Hm as [Hm1 Hm]. apply andb_prop in Hm as [Hm2 _].
  destruct (decide (h = [])) as [->|Hne]; [simpl in Hhl; lia|].
  destruct (exists_last Hne) as (h' & x & ->).
  rewrite forallb_app in Hh. apply andb_prop in Hh as [_ Hx]. simpl in Hx.
  rewrite andb_true_r in Hx.
  rewrite <- !app_assoc in Hno. simpl in Hno. rewrite app_assoc in Hno.
  by rewrite has_time_token_intro in Hno.
Qed.

(** C10. An event whose start text has no hour:minute token ("H:MM" or
    "HH:MM") is never retained, whatever its date: the pattern does not
    match it.  With today = 2025-08-15, "20 Aug. 2025" is an in-window
    date that is left out. *)
Theorem event_without_time_is_excluded :
  (∀ (now : datetime) (events kept : list CTFEvent) (event : CTFEvent),
      has_time_token ucd (start_time event) = false →
      filter_upcoming_week_events ucd now events = Ok kept →
      re_search ucd date_re (start_time event) = None ∧ event ∉ kept)
  ∧ has_time_token ucd (str_of "20 Aug. 2025") = false
  ∧ filter_upcoming_week_events ucd now_2025_08_15 [event_at "20 Aug. 2025"] = Ok []
  ∧ filter_upcoming_week_events ucd now_2025_08_15 [event_at "20 Aug. 2025, 10:00 UTC"]
    = Ok [event_at "20 Aug. 2025, 10:00 UTC"].
Proof.
  split; [|repeat split; vm_compute; reflexivity].
  intros now events kept event Hno Hfilter.
  pose proof (date_re_needs_time_token _ Hno) as Hnone.
  split; [done|].
  rewrite filter_upcoming_week_events_keeps in Hfilter.
  destruct (add_days now 7) as [week_end|]; [|done].
  injection Hfilter as <-.
  rewrite list_elem_of_In, filter_In. intros [_ Hkeep].
  unfold keeps in Hkeep. by rewrite Hnone in Hkeep.
Qed.

(** ** The month table *)

Lemma find_key_absent (table : list (str * Z)) (k : str) :
  k ∉ table.*1 → List.find (λ kv, bool_decide (kv.1 = k)) table = None.
Proof.
  induction table as [|[a b] table IH]; simpl; [done|].
  intros [Ha Hk]%not_elem_of_cons. case_bool_decide; simplify_eq/=; auto.
Qed.

(** C3. Only the first three characters of a month token are looked
    up; the lookup is an exact, case-sensitive comparison with the twelve
    English abbreviations Jan..Dec; a token whose first three characters
    are none of them is month 1. *)
Theorem month_number_first_three :
  month_table.*1 = str_of <$> ["Jan"; "Feb"; "Mar"; "Apr"; "May"; "Jun";
                               "Jul"; "Aug"; "Sep"; "Oct"; "Nov"; "Dec"]%string
  ∧ month_table.*2 = [1; 2; 3; 4; 5; 6; 7; 8; 9; 10; 11; 12]
  ∧ (∀ token token' : str,
       take 3 token = take 3 token' →
       month_number (Some token) = month_number (Some token'))
  ∧ (∀ (token abbreviation : str) (n : Z),
       (abbreviation, n) ∈ month_table →
       take 3 token = abbreviation →
       month_number (Some token) = Ok n)
  ∧ (∀ token : str,
       take 3 token ∉ month_table.*1 →
       month_number (Some token) = Ok 1)
  ∧ month_number (Some (str_of "August")) = Ok 8
  ∧ month_number (Some (str_of "aug")) = Ok 1
  ∧ month_number (Some (str_of "AUG")) = Ok 1
  ∧ month_number (Some (str_of "Au")) = Ok 1.
Proof.
  split; [reflexivity|]. split; [reflexivity|]. split; [|split; [|split]].
  - intros token token' Heq. unfold month_number, py_prefix. by rewrite Heq.
  - intros token abbreviation n Hin Htake.
    unfold month_number, py_prefix. rewrite Htake.
    apply list_elem_of_In in Hin. simpl in Hin.
    repeat (destruct Hin as [[= <- <-] | Hin]; [vm_compute; reflexivity|]).
    destruct Hin.
  - intros token Hnot. unfold month_number, py_prefix.
    rewrite spec_month_lookup. unfold spec_month.
    by rewrite find_key_absent.
  - repeat split; vm_compute; reflexivity.
Qed.

(** ** Rows of the events table *)

(** C4. The events parsed from a page are the yields of its rows, in
    row order, each row contributing independently of the others: a row
    with at least four cells and a link in the first cell yields exactly
    one event, whose url is the site origin followed by the link's href
    (nothing, when the link has no href); a row with fewer than four
    cells or no link in the first cell yields nothing, and leaving it out
    does not change the result. *)
Theorem parse_events_row_by_row :
  (∀ t : table, parse_events ucd (Some t) = Ok (page_rows t ≫= row_yield ucd))
  ∧ (∀ (r : row) (c0 : cell) (a : anchor),
       (4 ≤ length r)%nat → r !! 0%nat = Some c0 → td_link c0 = Some a →
       ∃ event, row_yield ucd r = [event]
                ∧ url event = base_url ++ default [] (a_href a))
  ∧ (∀ r : row,
       (length r < 4)%nat ∨ (∃ c0, r !! 0%nat = Some c0 ∧ td_link c0 = None) →
       row_yield ucd r = [])
  ∧ (∀ (rows1 rows2 others : list row) (r : row),
       row_yield ucd r = [] →
       parse_events ucd (Some {| tbody_rows := Some (rows1 ++ r :: rows2); all_rows := others |})
       = parse_events ucd (Some {| tbody_rows := Some (rows1 ++ rows2); all_rows := others |})).
Proof.
  split; [apply parse_events_yield|]. split; [|split].
  - intros r c0 a Hlen Hc0 Ha.
    destruct r as [|c0' [|c1 [|c2 [|c3 rest]]]]; simpl in Hlen; try lia.
    injection Hc0 as ->.
    destruct (parse_row_event ucd c0 c1 c2 c3 rest a [] Ha) as (st & dur & _ & _ & Hrow).
    unfold row_yield. rewrite Hrow. simpl. eauto.
  - intros r Hr. unfold row_yield. by rewrite parse_row_skip.
  - intros rows1 rows2 others r Hr. rewrite !parse_events_yield.
    unfold page_rows. simpl. rewrite !bind_app, bind_cons, Hr. done.
Qed.

(** ** The date column *)

(** C5, as amended. For the event of a row and the stripped text of its
    date cell: when the text contains the em-dash, the start text is the
    stripped part before the first one; when it contains exactly one, the
    duration is "<start> to <end>", both parts stripped; when it contains
    none, the start text is the whole text and the duration is
    "Unknown". *)
Theorem date_column_start_and_duration
    (r : row) (c1 : cell) (event : CTFEvent) :
  row_yield ucd r = [event] →
  r !! 1%nat = Some c1 →
  let date_text := strip ucd (td_text c1) in
  (∀ a b, date_text = a ++ em_dash :: b → em_dash ∉ a →
     start_time event = strip ucd a
     ∧ (em_dash ∉ b →
        duration event = strip ucd a ++ str_of " to " ++ strip ucd b))
  ∧ (em_dash ∉ date_text →
     start_time event = date_text ∧ duration event = str_of "Unknown").
Proof.
  intros Hrow Hc1 date_text.
  destruct (decide (length r < 4)%nat) as [Hlen|Hlen].
  { unfold row_yield in Hrow. rewrite parse_row_skip in Hrow by auto. done. }
  destruct r as [|c0 [|c1' [|c2 [|c3 rest]]]]; simpl in Hlen; try lia.
  injection Hc1 as ->.
  destruct (td_link c0) as [lnk|] eqn:Hlnk;
    [|unfold row_yield in Hrow; rewrite parse_row_skip in Hrow by (right; eauto); done].
  destruct (parse_row_event ucd c0 c1 c2 c3 rest lnk [] Hlnk) as (st & dur & Hst & Hdur & Hev).
  unfold row_yield in Hrow. rewrite Hev in Hrow. simpl in Hrow.
  injection Hrow as <-. simpl. fold date_text in Hst, Hdur.
  split.
  - intros a b Heq Ha. rewrite Heq in Hst, Hdur.
    rewrite parse_start_time_first in Hst by done. injection Hst as <-.
    split; [done|]. intros Hb.
    rewrite parse_duration_once in Hdur by done. by injection Hdur as <-.
  - intros Hno. rewrite parse_start_time_whole in Hst by done.
    rewrite parse_duration_none in Hdur by done.
    injection Hst as <-. by injection Hdur as <-.
Qed.

(** C9. When the em-dash occurs two or more times in the date text, the
    duration of the event is "Unknown" while its start text is still the
    stripped part before the first em-dash. *)
Theorem repeated_separator_gives_unknown_duration
    (r : row) (c1 : cell) (event : CTFEvent) (a b : str) :
  row_yield ucd r = [event] →
  r !! 1%nat = Some c1 →
  strip ucd (td_text c1) = a ++ em_dash :: b →
  em_dash ∉ a →
  em_dash ∈ b →
  duration event = str_of "Unknown" ∧ start_time event = strip ucd a.
Proof.
  intros Hrow Hc1 Heq Ha Hb.
  destruct (decide (length r < 4)%nat) as [Hlen|Hlen].
  { unfold row_yield in Hrow. rewrite parse_row_skip in Hrow by auto. done. }
  destruct r as [|c0 [|c1' [|c2 [|c3 rest]]]]; simpl in Hlen; try lia.
  injection Hc1 as ->.
  destruct (td_link c0) as [lnk|] eqn:Hlnk;
    [|unfold row_yield in Hrow; rewrite parse_row_skip in Hrow by (right; eauto); done].
  destruct (parse_row_event ucd c0 c1 c2 c3 rest lnk [] Hlnk) as (st & dur & Hst & Hdur & Hev).
  unfold row_yield in Hrow. rewrite Hev in Hrow. simpl in Hrow.
  injection Hrow as <-. simpl. rewrite Heq in Hst, Hdur.
  rewrite parse_start_time_first in Hst by done.
  rewrite parse_duration_twice in Hdur by done.
  injection Hst as <-. by injection Hdur as <-.
Qed.

(** ** The notification *)

Lemma add_fields_loop (events : list CTFEvent) :
  ∀ e : Embed,
    for_each events
      (λ event, add_field (f_name (event_field event)) (f_value (event_field event)) false) e
    = (Ok tt, mk_Embed (e_title e) (e_description e) (e_color e)
                (e_fields e ++ (event_field <$> events)) (e_footer e)).
Proof.
  induction events as [|ev events IH]; intros e; simpl.
  - unfold ret. rewrite app_nil_r. by destruct e.
  - unfold bind, add_field at 1, modify. rewrite IH. simpl.
    by rewrite <- app_assoc.
Qed.

(** C8. The embed sent for [n] events has one field per event for the
    first min(n, 10) events, in order, followed, exactly when n > 10, by
    one note whose text states n - 10 in decimal ("And 2 more CTFs!" for
    n = 12). *)
Theorem notification_caps_at_ten_fields :
  (∀ events : list CTFEvent,
     ∃ embed,
       send_ctf_notification events = Ok embed
       ∧ e_fields embed = spec_fields events
       ∧ length (event_field <$> take 10 events) = (length events `min` 10)%nat
       ∧ length (e_fields embed)
         = ((length events `min` 10) + (if (10 <? length events)%nat then 1 else 0))%nat)
  ∧ (∀ n : nat,
       f_value (note_field n)
       = str_of "And " ++ py_str (Z.of_nat n - 10) ++ str_of " more CTFs! Check [CTFTime]("
         ++ events_url ++ str_of ") for the full list.")
  ∧ (∀ n : nat, (10 < n)%nat →
       py_int ucd (Some (py_str (Z.of_nat n - 10))) = Ok (Z.of_nat n - 10))
  ∧ f_value (note_field 12)
    = str_of "And 2 more CTFs! Check [CTFTime](https://ctftime.org/event/list/upcoming) for the full list.".
Proof.
  split; [|split; [done|split; [|vm_compute; reflexivity]]].
  - intros events. unfold send_ctf_notification, run, bind.
    rewrite add_fields_loop. unfold spec_fields.
    assert (length (event_field <$> take 10 events) = (length events `min` 10)%nat) as Hlen.
    { rewrite length_fmap, length_take. lia. }
    destruct (10 <? length events)%nat;
      unfold add_field, set_footer, modify, ret; cbn [e_fields app];
      eexists; (split; [reflexivity|]); cbn [e_fields];
      (split; [by rewrite ?app_nil_r|]); (split; [done|]);
      rewrite ?app_nil_r, ?length_app, Hlen; simpl; lia.
  - intros n Hn. apply py_int_py_str. lia.
Qed.

(** ** Fetching the page *)

(** C6. Whatever the request does, provided an exception it meets is an
    [Exception] (as network and transport errors are), [fetch_page]
    returns normally: the body text when the status is 200 and the body
    could be read, the empty string in every other case. *)
Theorem fetch_page_never_raises (net : http_outcome) :
  (∀ e, transport_failure net = Some e → is_Exception e = true) →
  fetch_page net
  = Ok (match net with
        | Response status (BodyText text) => if status =? 200 then text else []
        | _ => []
        end).
Proof.
  intros Hexn. unfold fetch_page, try_except, raise, lift, ret.
  destruct net as [e | status [text | e]]; simpl in *.
  - by rewrite Hexn.
  - by destruct (status =? 200).
  - destruct (status =? 200); [|done]. simpl. by rewrite Hexn.
Qed.
End Claims.

(** * The claims at concrete inputs *)

(** "5 Jan., 10:00 UTC", read on 2025-08-15, is in January 2026. *)
Lemma yearless_start_rolls_forward_witness :
  date_groups ascii_ucd (str_of "5 Jan., 10:00 UTC")
  = Some (Some (str_of "5"), Some (str_of "Jan"), None, Some (str_of "10:00"))
  ∧ event_date ascii_ucd now_2025_08_15 (str_of "5 Jan., 10:00 UTC")
    = Some (Ok (mk_date 2026 1 5)).
Proof.
  split; [vm_compute; reflexivity|].
  refine (proj2 (proj1 (yearless_start_rolls_forward ascii_ucd)
                   now_2025_08_15 (str_of "5 Jan., 10:00 UTC") (str_of "5") (str_of "Jan")
                   (Some (str_of "10:00")) 5 1 (mk_date 2025 1 5) _ _ _ _));
    vm_compute; reflexivity.
Defined.

(** The claim of C1 as it is written fails on a leap day read in a common
    year: "29 Feb., 10:00 UTC" matches the pattern and has no year, but on
    2027-03-01 building the candidate date 2027-02-29 raises [ValueError],
    so that no year is resolved, neither 2027 nor 2028, and the event is
    dropped. *)
Lemma leap_day_in_common_year_resolves_no_year :
  date_groups ascii_ucd (str_of "29 Feb., 10:00 UTC")
  = Some (Some (str_of "29"), Some (str_of "Feb"), None, Some (str_of "10:00"))
  ∧ has_four_digits ascii_ucd (str_of "29 Feb., 10:00 UTC") = false
  ∧ datetime_date (year (dt_date now_2027_03_01)) 2 29 = Raise ValueError
  ∧ resolve_year ascii_ucd now_2027_03_01 2 (Some (str_of "29")) None = Raise ValueError
  ∧ event_date ascii_ucd now_2027_03_01 (str_of "29 Feb., 10:00 UTC")
    = Some (Raise ValueError)
  ∧ filter_upcoming_week_events ascii_ucd now_2027_03_01 [event_at "29 Feb., 10:00 UTC"]
    = Ok []
  ∧ ¬ (∃ year_text,
         resolve_year ascii_ucd now_2027_03_01 2 (Some (str_of "29")) None = Ok year_text).
Proof.
  repeat split; try (vm_compute; reflexivity).
  intros [year_text H]. vm_compute in H. discriminate H.
Qed.

(** On 2025-08-15 the window is 2025-08-15 .. 2025-08-22, ends included. *)
Lemma filter_keeps_events_in_window_witness :
  add_days now_2025_08_15 7 = Ok week_end_2025_08_22
  ∧ filter_upcoming_week_events ascii_ucd now_2025_08_15
      [event_at "20 Aug., 10:00 UTC"; event_at "5 Jan., 10:00 UTC";
       event_at "22 Aug. 2025, 10:00 UTC"; event_at "23 Aug. 2025, 10:00 UTC";
       event_at "15 Aug., 0:30 UTC"; event_at "14 Aug. 2025, 23:00 UTC"]
    = Ok [event_at "20 Aug., 10:00 UTC"; event_at "22 Aug. 2025, 10:00 UTC";
          event_at "15 Aug., 0:30 UTC"].
Proof.
  split; [vm_compute; reflexivity|].
  refine (proj1 (proj2 (filter_keeps_events_in_window ascii_ucd
                          now_2025_08_15 week_end_2025_08_22 _ _))).
  vm_compute; reflexivity.
Defined.

(** 31 February is no date: the event is skipped, its neighbours are kept. *)
Lemma unresolvable_event_is_skipped_witness :
  ∃ kept_before kept_after,
    filter_upcoming_week_events ascii_ucd now_2025_08_15
      [event_at "20 Aug., 10:00 UTC"] = Ok kept_before
    ∧ filter_upcoming_week_events ascii_ucd now_2025_08_15
        [event_at "22 Aug. 2025, 10:00 UTC"] = Ok kept_after
    ∧ filter_upcoming_week_events ascii_ucd now_2025_08_15
        ([event_at "20 Aug., 10:00 UTC"] ++ event_at "31 Feb., 10:00 UTC"
           :: [event_at "22 Aug. 2025, 10:00 UTC"])
      = Ok (kept_before ++ kept_after)
    ∧ filter_upcoming_week_events ascii_ucd now_2025_08_15
        ([event_at "20 Aug., 10:00 UTC"] ++ [event_at "22 Aug. 2025, 10:00 UTC"])
      = Ok (kept_before ++ kept_after).
Proof.
  apply (unresolvable_event_is_skipped ascii_ucd now_2025_08_15 week_end_2025_08_22).
  - vm_compute; reflexivity.
  - exists ValueError. vm_compute; reflexivity.
Defined.

(** "20 Aug. 2025" has no time token and is not matched. *)
Lemma event_without_time_is_excluded_witness :
  re_search ascii_ucd date_re (start_time (event_at "20 Aug. 2025")) = None
  ∧ event_at "20 Aug. 2025" ∉ ([] : list CTFEvent).
Proof.
  apply (proj1 (event_without_time_is_excluded ascii_ucd)
           now_2025_08_15 [event_at "20 Aug. 2025"] []); vm_compute; reflexivity.
Defined.

(** "August" is looked up as "Aug". *)
Lemma month_number_first_three_witness :
  month_number (Some (str_of "August")) = Ok 8.
Proof.
  apply (proj1 (proj2 (proj2 (proj2 month_number_first_three)))
           (str_of "August") (str_of "Aug") 8).
  - apply list_elem_of_In. vm_compute. tauto.
  - vm_compute; reflexivity.
Defined.

(** A full row gives one event with an absolute url. *)
Lemma parse_events_row_by_row_witness :
  ∃ event, row_yield ascii_ucd (example_row one_separator_text) = [event]
           ∧ url event = base_url ++ str_of "/event/1".
Proof.
  apply (proj1 (proj2 (parse_events_row_by_row ascii_ucd))
           (example_row one_separator_text)
           {| td_text := str_of "Example CTF";
              td_link := Some {| a_text := str_of "Example CTF";
                                 a_href := Some (str_of "/event/1") |} |}
           {| a_text := str_of "Example CTF"; a_href := Some (str_of "/event/1") |}).
  - simpl. lia.
  - reflexivity.
  - reflexivity.
Defined.

(** One separator: the start text and the rendered duration. *)
Lemma date_column_start_and_duration_witness :
  start_time (example_event (str_of "20 Aug., 10:00 UTC")
                (str_of "20 Aug., 10:00 UTC to 22 Aug. 2025, 10:00 UTC"))
  = strip ascii_ucd (str_of "20 Aug., 10:00 UTC ")
  ∧ (em_dash ∉ str_of " 22 Aug. 2025, 10:00 UTC" →
     duration (example_event (str_of "20 Aug., 10:00 UTC")
                 (str_of "20 Aug., 10:00 UTC to 22 Aug. 2025, 10:00 UTC"))
     = strip ascii_ucd (str_of "20 Aug., 10:00 UTC ") ++ str_of " to "
       ++ strip ascii_ucd (str_of " 22 Aug. 2025, 10:00 UTC")).
Proof.
  apply (proj1 (date_column_start_and_duration ascii_ucd
                  (example_row one_separator_text) (text_cell one_separator_text)
                  (example_event (str_of "20 Aug., 10:00 UTC")
                     (str_of "20 Aug., 10:00 UTC to 22 Aug. 2025, 10:00 UTC"))
                  ltac:(vm_compute; reflexivity) ltac:(reflexivity))).
  - vm_compute; reflexivity.
  - apply contains_not_elem_of. vm_compute; reflexivity.
Defined.

(** Two separators: the duration is "Unknown". *)
Lemma repeated_separator_gives_unknown_duration_witness :
  duration (example_event (str_of "20 Aug., 10:00 UTC") (str_of "Unknown")) = str_of "Unknown"
  ∧ start_time (example_event (str_of "20 Aug., 10:00 UTC") (str_of "Unknown"))
    = strip ascii_ucd (str_of "20 Aug., 10:00 UTC ").
Proof.
  apply (repeated_separator_gives_unknown_duration ascii_ucd
           (example_row two_separator_text) (text_cell two_separator_text)
           (example_event (str_of "20 Aug., 10:00 UTC") (str_of "Unknown"))
           (str_of "20 Aug., 10:00 UTC ")
           (str_of " 21 Aug., 10:00 UTC " ++ em_dash :: str_of " 22 Aug. 2025, 10:00 UTC")).
  - vm_compute; reflexivity.
  - reflexivity.
  - vm_compute; reflexivity.
  - apply contains_not_elem_of. vm_compute; reflexivity.
  - apply contains_elem_of. vm_compute; reflexivity.
Defined.

(** The claim of C5 as it is written fails on two separators: the date
    text contains the em-dash, and the duration of the event is "Unknown",
    which is not of the shape "<start> to <end>". *)
Lemma two_separators_duration_not_rendered :
  contains em_dash two_separator_text = true
  ∧ row_yield ascii_ucd (example_row two_separator_text)
    = [example_event (str_of "20 Aug., 10:00 UTC") (str_of "Unknown")]
  ∧ ¬ ∃ start_part end_part,
        duration (example_event (str_of "20 Aug., 10:00 UTC") (str_of "Unknown"))
        = start_part ++ str_of " to " ++ end_part.
Proof.
  split; [vm_compute; reflexivity|]. split; [vm_compute; reflexivity|].
  intros (start_part & end_part & H).
  assert (32%N ∈ duration (example_event (str_of "20 Aug., 10:00 UTC") (str_of "Unknown")))
    as Hin.
  { rewrite H. apply elem_of_app. right. apply elem_of_app. left. by constructor. }
  apply contains_elem_of in Hin. vm_compute in Hin. discriminate Hin.
Qed.

(** A connection error gives the empty string. *)
Lemma fetch_page_never_raises_witness : fetch_page (GetRaises ClientError) = Ok [].
Proof.
  apply (fetch_page_never_raises (GetRaises ClientError)).
  intros e H. injection H as <-. reflexivity.
Defined.

(** Twelve events: the note says 2. *)
Lemma notification_caps_at_ten_fields_witness :
  py_int ascii_ucd (Some (py_str (Z.of_nat 12 - 10))) = Ok (Z.of_nat 12 - 10).
Proof.
  apply (proj1 (proj2 (proj2 (notification_caps_at_ten_fields ascii_ucd))) 12%nat). lia.
Defined.

(** * Further properties of the scraper and the bot *)

Lemma date_lt_total (a b : date) : date_lt a b = false → date_le b a = true.
Proof.
  unfold date_le, date_lt, date_eqb.
  repeat match goal with
         | |- context [?x <? ?y] => destruct (Z.ltb_spec x y)
         | |- context [?x =? ?y] => destruct (Z.eqb_spec x y)
         end; simpl; try done; lia.
Qed.

Lemma datetime_date_raises (y m d : Z) (e : exn) :
  datetime_date y m d = Raise e → e = ValueError.
Proof. unfold datetime_date. destruct (valid_date y m d); by intros [= <-]. Qed.

Lemma datetime_date_ok (y m d : Z) (x : date) :
  datetime_date y m d = Ok x → x = mk_date y m d ∧ valid_date y m d = true.
Proof. unfold datetime_date. destruct (valid_date y m d); by intros [= <-]. Qed.

Section MoreFilter.
Context (ucd : UCD).

(** The steps of [resolve_start] on the groups of a match. *)
Lemma resolve_start_steps (now : datetime) (s : str) (caps : captures) :
  re_search ucd date_re s = Some caps →
  ∃ (day : str) (d m : Z),
    caps !! 1%nat = Some day
    ∧ py_int ucd (Some day) = Ok d
    ∧ month_number (caps !! 2%nat) = Ok m
    ∧ ((caps !! 3%nat = None
        ∧ resolve_start ucd now caps
          = match datetime_date (year (dt_date now)) m d with
            | Ok candidate =>
                datetime_date (if date_lt candidate (dt_date now)
                               then year (dt_date now) + 1 else year (dt_date now)) m d
            | Raise e => Raise e
            end)
       ∨ (∃ (ys : str) (y : Z),
            caps !! 3%nat = Some ys ∧ py_int ucd (Some ys) = Ok y
            ∧ resolve_start ucd now caps = datetime_date y m d)).
Proof.
  intros Hs.
  destruct (date_re_groups ucd s caps Hs)
    as (day & tok & tm & H1 & H2 & H4 & Hday & Hlen & H3 & _).
  assert (day ≠ []) as Hne by (destruct day; simpl in *; [lia|done]).
  destruct (py_int_digit_run ucd day Hday Hne) as [d Hd].
  exists day, d, (default 1 (month_names !! take 3 tok)).
  rewrite H2. repeat split; try done.
  unfold resolve_start, groups. rewrite H1, H2. cbn [month_number py_prefix].
  destruct H3 as [H3 | (ys & ? & ? & H3 & Hys & Hylen & _)]; rewrite H3.
  - left. split; [done|]. unfold resolve_year. cbn [py_not]. rewrite Hd.
    destruct (datetime_date _ _ d) as [cand|e] eqn:Hc; [|done].
    apply datetime_date_ok in Hc as [_ Hv].
    assert (1 ≤ year (dt_date now)) as Hy.
    { unfold valid_date, MINYEAR in Hv. repeat (apply andb_prop in Hv as [Hv ?]). lia. }
    destruct (date_lt cand (dt_date now)); rewrite py_int_py_str by lia; done.
  - right. assert (ys ≠ []) as Hyne by (destruct ys; simpl in *; [lia|done]).
    destruct (py_int_digit_run ucd ys Hys Hyne) as [y Hy].
    exists ys, y. repeat split; try done.
    unfold resolve_year. destruct ys as [|c ys]; [done|]. cbn [py_not].
    by rewrite Hy, Hd.
Qed.

(** X1. On the groups of a match, the day and the month always convert
    ([int(day)] and the month lookup never fail) and so does the year when
    it is present; computing the event date can only fail with the
    [ValueError] of [datetime], that is, on a date that is not in the
    calendar. *)
Theorem matched_start_fails_only_on_calendar (now : datetime) (s : str) (caps : captures) :
  re_search ucd date_re s = Some caps →
  (∃ d m, py_int ucd (caps !! 1%nat) = Ok d ∧ month_number (caps !! 2%nat) = Ok m)
  ∧ (caps !! 3%nat = None ∨ ∃ y, py_int ucd (caps !! 3%nat) = Ok y)
  ∧ ∀ e, resolve_start ucd now caps = Raise e → e = ValueError.
Proof.
  intros Hs.
  destruct (resolve_start_steps now s caps Hs)
    as (day & d & m & H1 & Hd & Hm & [[H3 Hr] | (ys & y & H3 & Hy & Hr)]).
  - split; [exists d, m; by rewrite H1|]. split; [by left|].
    intros e. rewrite Hr.
    destruct (datetime_date (year (dt_date now)) m d) eqn:Hc; [apply datetime_date_raises|].
    intros [= <-]. by apply datetime_date_raises in Hc.
  - split; [exists d, m; by rewrite H1|]. split; [right; exists y; by rewrite H3|].
    intros e. rewrite Hr. apply datetime_date_raises.
Qed.

(** X2. When the start text carries a year, the event date is built from
    that year, the month and the day as written, whatever the clock says:
    an explicit year is never rolled forward. *)
Theorem explicit_year_is_taken_as_written (s : str) (caps : captures) (ys : str) :
  re_search ucd date_re s = Some caps →
  caps !! 3%nat = Some ys →
  ∃ d m y,
    py_int ucd (caps !! 1%nat) = Ok d
    ∧ month_number (caps !! 2%nat) = Ok m
    ∧ py_int ucd (Some ys) = Ok y
    ∧ ∀ now, resolve_start ucd now caps = datetime_date y m d.
Proof.
  intros Hs H3.
  destruct (resolve_start_steps now_2025_08_15 s caps Hs)
    as (day & d & m & H1 & Hd & Hm & [[H3' _] | (ys' & y & H3' & Hy & _)]); [congruence|].
  assert (ys' = ys) as -> by congruence.
  exists d, m, y. rewrite H1. repeat split; try done.
  intros now.
  destruct (resolve_start_steps now s caps Hs)
    as (day2 & d2 & m2 & H12 & Hd2 & Hm2 & [[H32 _] | (ys2 & y2 & H32 & Hy2 & Hr)]);
    [congruence|].
  rewrite Hr. congruence.
Qed.

(** X3. A start text without a year is never resolved to a date before
    today: the resolved date is today or later, in the current year or the
    next one. *)
Theorem yearless_start_is_never_in_the_past
    (now : datetime) (s : str) (caps : captures) (d : date) :
  re_search ucd date_re s = Some caps →
  caps !! 3%nat = None →
  resolve_start ucd now caps = Ok d →
  date_le (dt_date now) d = true
  ∧ (year d = year (dt_date now) ∨ year d = year (dt_date now) + 1).
Proof.
  intros Hs H3 Hres.
  destruct (resolve_start_steps now s caps Hs)
    as (dtext & dd & m & H1 & Hd & Hm & [[_ Hr] | (ys & y & H3' & _)]); [|congruence].
  rewrite Hr in Hres.
  destruct (datetime_date (year (dt_date now)) m dd) as [cand|] eqn:Hc; [|done].
  apply datetime_date_ok in Hc as [-> _].
  destruct (date_lt _ (dt_date now)) eqn:Hlt.
  - apply datetime_date_ok in Hres as [-> _]. split; [|by right].
    unfold date_le, date_lt. cbn [year month day].
    destruct (Z.ltb_spec (year (dt_date now)) (year (dt_date now) + 1)); [done|lia].
  - apply datetime_date_ok in Hres as [-> _]. split; [|by left].
    by apply date_lt_total.
Qed.

(** X5. The filter raises in one case only: when [now] plus seven days is
    past the last representable date, it raises [OverflowError], whatever
    the events (the addition is outside the [try] block); for a valid
    today this happens exactly when today's ordinal plus 7 exceeds
    [MAXORDINAL], from 9999-12-25 on. *)
Theorem filter_raises_only_at_the_end_of_time (now : datetime) (events : list CTFEvent) :
  (∀ e, filter_upcoming_week_events ucd now events = Raise e →
        e = OverflowError ∧ add_days now 7 = Raise OverflowError)
  ∧ (date_valid (dt_date now) = true →
     (∃ kept, filter_upcoming_week_events ucd now events = Ok kept)
     ↔ toordinal (dt_date now) + 7 ≤ MAXORDINAL)
  ∧ filter_upcoming_week_events ucd now_9999_12_24 [] = Ok []
  ∧ filter_upcoming_week_events ucd now_9999_12_25 [] = Raise OverflowError.
Proof.
  split; [|split; [|split; vm_compute; reflexivity]];
    rewrite filter_upcoming_week_events_keeps; unfold add_days.
  - intros e. destruct (_ && _); [done|]. by intros [= <-].
  - intros Hvalid.
    pose proof (day_of_year_bounds _ Hvalid) as Hdoy.
    apply date_valid_bounds in Hvalid as (Hy & _).
    pose proof (days_before_year_mono 1 (year (dt_date now)) ltac:(lia)) as Hdby.
    change (days_before_year 1) with 0 in Hdby.
    assert (1 ≤ toordinal (dt_date now)) as Hord by (unfold toordinal; lia).
    destruct (Z.ltb_spec 0 (toordinal (dt_date now) + 7)); [|lia].
    destruct (Z.leb_spec (toordinal (dt_date now) + 7) MAXORDINAL); simpl.
    + split; eauto.
    + split; [by intros [? ?] | lia].
Qed.

(** X6. Filtering is idempotent: the events the filter returned all pass
    the filter again, at the same clock reading. *)
Theorem filter_is_idempotent (now : datetime) (events kept : list CTFEvent) :
  filter_upcoming_week_events ucd now events = Ok kept →
  filter_upcoming_week_events ucd now kept = Ok kept.
Proof.
  rewrite !filter_upcoming_week_events_keeps.
  destruct (add_days now 7) as [week_end|]; [|done].
  intros [= <-]. f_equal.
  induction events as [|e events IH]; [done|]. simpl.
  destruct (keeps ucd now week_end e) eqn:He; [|done].
  simpl. by rewrite He, IH.
Qed.

(** X7. Filtering two batches one after the other gives the result of
    filtering their concatenation. *)
Theorem filter_distributes_over_append
    (now : datetime) (first second kept1 kept2 : list CTFEvent) :
  filter_upcoming_week_events ucd now first = Ok kept1 →
  filter_upcoming_week_events ucd now second = Ok kept2 →
  filter_upcoming_week_events ucd now (first ++ second) = Ok (kept1 ++ kept2).
Proof.
  rewrite !filter_upcoming_week_events_keeps.
  destruct (add_days now 7) as [week_end|]; [|done].
  intros [= <-] [= <-]. by rewrite List.filter_app.
Qed.

End MoreFilter.

Lemma toordinal_inj (a b : date) :
  date_valid a = true → date_valid b = true → toordinal a = toordinal b → a = b.
Proof.
  intros Ha Hb Heq.
  destruct (date_lt a b) eqn:Hab.
  { pose proof (toordinal_lt a b Ha Hb Hab). lia. }
  destruct (date_lt b a) eqn:Hba.
  { pose proof (toordinal_lt b a Hb Ha Hba). lia. }
  destruct a as [ya ma da], b as [yb mb db]. unfold date_lt in *. cbn [year month day] in *.
  assert (ya = yb ∧ ma = mb ∧ da = db) as (-> & -> & ->); [|done].
  repeat match goal with
         | H : context [?x <? ?y] |- _ => destruct (Z.ltb_spec x y)
         | H : context [?x =? ?y] |- _ => destruct (Z.eqb_spec x y)
         end; simpl in *; try done; lia.
Qed.

(** X8. The window test of the filter accepts eight calendar dates, not
    seven: for a valid today, a valid date passes iff it is today plus [k]
    days for some [k] from 0 to 7; so an event whose start text resolves
    to [d] is retained by the filter iff [d] is one of these eight dates. *)
Theorem window_has_eight_dates (now week_end : datetime) (d : date) :
  date_valid (dt_date now) = true →
  add_days now 7 = Ok week_end →
  date_valid d = true →
  (date_le (dt_date now) d && date_le d (dt_date week_end) = true
   ↔ ∃ k, 0 ≤ k ≤ 7 ∧ d = fromordinal (toordinal (dt_date now) + k))
  ∧ ∀ (ucd : UCD) (event : CTFEvent) (caps : captures),
      re_search ucd date_re (start_time event) = Some caps →
      resolve_start ucd now caps = Ok d →
      (filter_upcoming_week_events ucd now [event] = Ok [event]
       ↔ ∃ k, 0 ≤ k ≤ 7 ∧ d = fromordinal (toordinal (dt_date now) + k)).
Proof.
  intros Hnow Hweek Hd.
  assert (date_le (dt_date now) d && date_le d (dt_date week_end) = true
          ↔ ∃ k, 0 ≤ k ≤ 7 ∧ d = fromordinal (toordinal (dt_date now) + k)) as Hwindow;
    [|split; [exact Hwindow|];
      intros ucd event caps Hs Hr; rewrite <- Hwindow;
      rewrite filter_upcoming_week_events_keeps, Hweek; cbn [List.filter];
      unfold keeps; rewrite Hs, Hr;
      destruct (date_le (dt_date now) d && date_le d (dt_date week_end));
      split; (done || congruence)].
  rewrite (window_is_seven_days now week_end d Hnow Hweek Hd).
  unfold add_days in Hweek. destruct (_ && _) eqn:Hrange; [|done].
  apply andb_prop in Hrange as [Hlo Hhi]. apply Z.ltb_lt in Hlo. apply Z.leb_le in Hhi.
  pose proof (day_of_year_bounds _ Hnow) as Hdoy.
  pose proof (date_valid_bounds _ Hnow) as (Hy & _).
  pose proof (days_before_year_mono 1 (year (dt_date now)) ltac:(lia)) as Hdby.
  change (days_before_year 1) with 0 in Hdby.
  assert (1 ≤ toordinal (dt_date now)) as Hord by (unfold toordinal; lia).
  split.
  - intros Hwin. exists (toordinal d - toordinal (dt_date now)). split; [lia|].
    apply toordinal_inj; [done| apply fromordinal_valid; lia |].
    rewrite toordinal_fromordinal by lia. lia.
  - intros (k & Hk & ->). rewrite toordinal_fromordinal by lia. lia.
Qed.


Section MoreParse.
Context (ucd : UCD).

Lemma elem_of_lstrip (x : N) (s : str) : x ∈ lstrip ucd s → x ∈ s.
Proof.
  induction s as [|c s IH]; simpl; [done|].
  destruct (isspace ucd c); [|done]. intros H. right. by apply IH.
Qed.

Lemma lstrip_head (s : str) (c : N) (t : str) :
  lstrip ucd s = c :: t → isspace ucd c = false.
Proof.
  induction s as [|x s IH]; simpl; [done|].
  destruct (isspace ucd x) eqn:Hx; [done|]. by intros [= <- <-].
Qed.

Lemma lstrip_idem (s : str) : lstrip ucd (lstrip ucd s) = lstrip ucd s.
Proof.
  destruct (lstrip ucd s) as [|c t] eqn:Hs; [done|].
  simpl. by rewrite (lstrip_head s c t Hs).
Qed.

Lemma lstrip_app_nonspace (u v : str) (c : N) :
  isspace ucd c = false → lstrip ucd (u ++ c :: v) = lstrip ucd u ++ c :: v.
Proof.
  intros Hc. induction u as [|x u IH]; simpl.
  - by rewrite Hc.
  - by destruct (isspace ucd x).
Qed.

Lemma rstrip_cons_nonspace (c : N) (t : str) :
  isspace ucd c = false → rstrip ucd (c :: t) = c :: rstrip ucd t.
Proof.
  intros Hc. unfold rstrip. rewrite reverse_cons, lstrip_app_nonspace by done.
  by rewrite reverse_app.
Qed.

Lemma rstrip_idem (s : str) : rstrip ucd (rstrip ucd s) = rstrip ucd s.
Proof. unfold rstrip. by rewrite reverse_involutive, lstrip_idem. Qed.

Lemma strip_idem (s : str) : strip ucd (strip ucd s) = strip ucd s.
Proof.
  unfold strip. destruct (lstrip ucd s) as [|c t] eqn:Hs; [done|].
  pose proof (lstrip_head s c t Hs) as Hc.
  rewrite rstrip_cons_nonspace by done. simpl. rewrite Hc.
  rewrite <- rstrip_cons_nonspace by done. apply rstrip_idem.
Qed.

Lemma elem_of_strip (x : N) (s : str) : x ∈ strip ucd s → x ∈ s.
Proof.
  unfold strip, rstrip. intros H.
  rewrite elem_of_reverse in H. apply elem_of_lstrip in H.
  rewrite elem_of_reverse in H. by apply elem_of_lstrip in H.
Qed.

(** The rows that yield an event, and the event they yield. *)
Lemma row_yield_event (r : row) (event : CTFEvent) :
  event ∈ row_yield ucd r →
  ∃ c0 c1 c2 c3 rest a st dur,
    r = c0 :: c1 :: c2 :: c3 :: rest
    ∧ td_link c0 = Some a
    ∧ parse_start_time ucd (strip ucd (td_text c1)) = Ok st
    ∧ parse_duration ucd (strip ucd (td_text c1)) = Ok dur
    ∧ row_yield ucd r = [event]
    ∧ event = mk_CTFEvent (strip ucd (a_text a)) st dur
                (base_url ++ default [] (a_href a)) (strip ucd (td_text c2)).
Proof.
  intros Hin.
  destruct (decide (length r < 4)%nat) as [Hlen|Hlen].
  { unfold row_yield in Hin. rewrite parse_row_skip in Hin by auto. by apply elem_of_nil in Hin. }
  destruct r as [|c0 [|c1 [|c2 [|c3 rest]]]]; simpl in Hlen; try lia.
  destruct (td_link c0) as [a|] eqn:Ha.
  - destruct (parse_row_event ucd c0 c1 c2 c3 rest a [] Ha) as (st & dur & Hst & Hdur & Hrow).
    unfold row_yield in Hin |- *. rewrite Hrow in Hin |- *. simpl in Hin |- *.
    apply list_elem_of_singleton in Hin as ->. eauto 15.
  - unfold row_yield in Hin. rewrite parse_row_skip in Hin by (right; eauto).
    by apply elem_of_nil in Hin.
Qed.

Lemma parsed_event_row (page : soup) (events : list CTFEvent) (event : CTFEvent) :
  parse_events ucd page = Ok events → event ∈ events →
  ∃ t r, page = Some t ∧ r ∈ page_rows t ∧ event ∈ row_yield ucd r.
Proof.
  destruct page as [t|]; [|intros [= <-] Hin; by apply elem_of_nil in Hin].
  rewrite parse_events_yield. intros [= <-] Hin.
  apply list_elem_of_bind in Hin as (r & Hev & Hr). eauto.
Qed.

(** X9. [parse_events] never raises, on any page, and returns at most one
    event per row of the table (none when the table is missing). *)
Theorem parse_events_returns_at_most_one_event_per_row (page : soup) :
  ∃ events,
    parse_events ucd page = Ok events
    ∧ (length events ≤ match page with
                       | Some t => length (page_rows t)
                       | None => 0
                       end)%nat.
Proof.
  destruct page as [t|]; [|by exists []].
  exists (page_rows t ≫= row_yield ucd). split; [apply parse_events_yield|].
  induction (page_rows t) as [|r rows IH]; [done|].
  rewrite bind_cons, length_app. simpl.
  assert (length (row_yield ucd r) ≤ 1)%nat; [|lia].
  destruct (row_yield ucd r) as [|e l] eqn:Hy; [simpl; lia|].
  assert (e ∈ row_yield ucd r) as Hin by (rewrite Hy; left).
  apply row_yield_event in Hin as (?&?&?&?&?&?&?&?&_&_&_&_&Hone&_).
  rewrite Hy in Hone. injection Hone as ->. simpl. lia.
Qed.

(** X10. Every parsed event has an absolute url (the site origin followed
    by a path) and a title, a start text and a format label without
    surrounding whitespace. *)
Theorem parsed_event_is_trimmed_and_absolute
    (page : soup) (events : list CTFEvent) (event : CTFEvent) :
  parse_events ucd page = Ok events →
  event ∈ events →
  (∃ path, url event = base_url ++ path)
  ∧ strip ucd (title event) = title event
  ∧ strip ucd (start_time event) = start_time event
  ∧ strip ucd (format_type event) = format_type event.
Proof.
  intros Hparse Hin.
  destruct (parsed_event_row page events event Hparse Hin) as (t & r & _ & _ & Hr).
  apply row_yield_event in Hr
    as (c0 & c1 & c2 & c3 & rest & a & st & dur & _ & _ & Hst & _ & _ & ->).
  cbn [url title start_time format_type].
  split; [eauto|]. split; [apply strip_idem|]. split; [|apply strip_idem].
  destruct (first_separator (strip ucd (td_text c1))) as [Hno | (x & y & Heq & Hx)].
  - rewrite parse_start_time_whole in Hst by done. injection Hst as <-. apply strip_idem.
  - rewrite Heq, parse_start_time_first in Hst by done. injection Hst as <-. apply strip_idem.
Qed.

(** X11. The start text of a parsed event never contains the em-dash, and
    its duration is either "Unknown" or the start text followed by " to "
    and an end part without em-dash. *)
Theorem parsed_start_text_and_duration_agree
    (page : soup) (events : list CTFEvent) (event : CTFEvent) :
  parse_events ucd page = Ok events →
  event ∈ events →
  (em_dash ∉ start_time event)
  ∧ (duration event = str_of "Unknown"
     ∨ ∃ end_part, duration event = start_time event ++ str_of " to " ++ end_part
                   ∧ em_dash ∉ end_part).
Proof.
  intros Hparse Hin.
  destruct (parsed_event_row page events event Hparse Hin) as (t & r & _ & _ & Hr).
  apply row_yield_event in Hr
    as (c0 & c1 & c2 & c3 & rest & a & st & dur & _ & _ & Hst & Hdur & _ & ->).
  cbn [start_time duration].
  destruct (first_separator (strip ucd (td_text c1))) as [Hno | (x & y & Heq & Hx)].
  - rewrite parse_start_time_whole in Hst by done.
    rewrite parse_duration_none in Hdur by done.
    injection Hst as <-. injection Hdur as <-. auto.
  - rewrite Heq in Hst, Hdur. rewrite parse_start_time_first in Hst by done.
    injection Hst as <-. split; [by intros ?%elem_of_strip|].
    destruct (decide (em_dash ∈ y)) as [Hy|Hy].
    + rewrite parse_duration_twice in Hdur by done. injection Hdur as <-. by left.
    + rewrite parse_duration_once in Hdur by done. injection Hdur as <-.
      right. exists (strip ucd y). split; [done|]. by intros ?%elem_of_strip.
Qed.
End MoreParse.

(** ** The notification and the commands *)

Lemma send_ctf_notification_fields (events : list CTFEvent) :
  ∃ embed, send_ctf_notification events = Ok embed ∧ e_fields embed = spec_fields events.
Proof.
  unfold send_ctf_notification, run, bind. rewrite add_fields_loop. unfold spec_fields.
  destruct (10 <? length events)%nat;
    unfold add_field, set_footer, modify, ret; cbn [e_fields app];
    eexists; (split; [reflexivity|]); cbn [e_fields]; by rewrite ?app_nil_r.
Qed.

(** X12. A notification has at most eleven fields (ten events and the
    note), never more fields than events, and at least one field when there
    is an event. *)
Theorem notification_has_at_most_eleven_fields (events : list CTFEvent) :
  ∃ embed,
    send_ctf_notification events = Ok embed
    ∧ (length (e_fields embed) ≤ 11)%nat
    ∧ (length (e_fields embed) ≤ length events)%nat
    ∧ (events ≠ [] → e_fields embed ≠ []).
Proof.
  destruct (send_ctf_notification_fields events) as (embed & Hsend & Hfields).
  exists embed. split; [done|]. rewrite Hfields. unfold spec_fields.
  rewrite length_app, length_fmap, length_take.
  destruct (Nat.ltb_spec 10 (length events)); cbn [length].
  - split; [lia|]. split; [lia|]. intros _ Hnil.
    by apply app_eq_nil in Hnil as [_ ?].
  - split; [lia|]. split; [lia|]. intros Hne. by destruct events.
Qed.

Lemma next_ctfs_embed_fields (limit : Z) (events : list CTFEvent) :
  next_ctfs_embed limit events
  = Ok (mk_Embed (128681%N :: str_of " Next Upcoming CTFs")
          (str_of "Here are the next " ++ py_str (Z.min limit (Z.of_nat (length events)))
           ++ str_of " upcoming CTFs:")
          39423 (event_field <$> slice_to limit events) (Some (str_of "CTF Time Bot"))).
Proof.
  unfold next_ctfs_embed, run, bind. rewrite add_fields_loop.
  unfold set_footer, modify. by cbn [e_title e_description e_color e_fields e_footer app].
Qed.

(** X13. For a non-negative [limit], the embed of [next_ctfs] has one field
    for each of the first min(limit, n) events, without the cap of ten, and
    its description states that number. *)
Theorem next_ctfs_shows_as_many_as_it_says (limit : Z) (events : list CTFEvent) :
  0 ≤ limit →
  ∃ embed,
    next_ctfs_embed limit events = Ok embed
    ∧ e_fields embed = event_field <$> take (Z.to_nat limit) events
    ∧ Z.of_nat (length (e_fields embed)) = Z.min limit (Z.of_nat (length events))
    ∧ e_description embed
      = str_of "Here are the next " ++ py_str (Z.of_nat (length (e_fields embed)))
        ++ str_of " upcoming CTFs:".
Proof.
  intros Hlimit. rewrite next_ctfs_embed_fields. eexists. split; [reflexivity|].
  cbn [e_fields e_description]. unfold slice_to.
  destruct (Z.ltb_spec limit 0); [lia|].
  assert (Z.of_nat (length (event_field <$> take (Z.to_nat limit) events))
          = Z.min limit (Z.of_nat (length events))) as Hlen.
  { rewrite length_fmap, length_take. lia. }
  by rewrite Hlen.
Qed.

(** X14. For a negative [limit], [events[:limit]] drops the last [-limit]
    events: the embed of [next_ctfs] shows all the others, while its
    description states the negative number. *)
Theorem next_ctfs_negative_limit_drops_from_the_end (limit : Z) (events : list CTFEvent) :
  limit < 0 →
  ∃ embed,
    next_ctfs_embed limit events = Ok embed
    ∧ e_fields embed
      = event_field <$> take (length events - Z.to_nat (- limit)) events
    ∧ e_description embed
      = str_of "Here are the next " ++ py_str limit ++ str_of " upcoming CTFs:".
Proof.
  intros Hlimit. rewrite next_ctfs_embed_fields. eexists. split; [reflexivity|].
  cbn [e_fields e_description]. unfold slice_to.
  destruct (Z.ltb_spec limit 0); [|lia].
  replace (Z.to_nat (Z.of_nat (length events) + limit))
    with (length events - Z.to_nat (- limit))%nat by lia.
  by rewrite Z.min_l by lia.
Qed.

Section MoreBot.
Context (ucd : UCD).
Context (html_parser : str → parser_outcome).
Context (deliver : message → result unit).
Context (exn_text : exn → str).

Lemma fetch_page_returns (net : http_outcome) :
  (∀ e, transport_failure net = Some e → is_Exception e = true) →
  ∃ html, fetch_page net = Ok html.
Proof.
  intros Hexn. unfold fetch_page, try_except, raise, lift, ret.
  destruct net as [e | status [text | e]]; simpl in *.
  - rewrite Hexn by done. eauto.
  - destruct (status =? 200); eauto.
  - destruct (status =? 200); [|eauto]. simpl. rewrite Hexn by done. eauto.
Qed.

Lemma parse_events_returns (page : soup) : ∃ events, parse_events ucd page = Ok events.
Proof.
  destruct page as [t|]; [|by exists []]. rewrite parse_events_yield. eauto.
Qed.

Lemma filter_returns_or_overflows (now : datetime) (events : list CTFEvent) :
  (∃ kept, filter_upcoming_week_events ucd now events = Ok kept)
  ∨ filter_upcoming_week_events ucd now events = Raise OverflowError.
Proof.
  rewrite filter_upcoming_week_events_keeps. unfold add_days.
  destruct (_ && _); eauto.
Qed.

Lemma send_ok (m : message) (s : bot_state) :
  deliver m = Ok tt → send deliver m s = (Ok tt, mk_bot_state (outbox s ++ [m]) (closed s)).
Proof. intros H. unfold send. by rewrite H. Qed.

Lemma send_outcome (m : message) (s : bot_state) :
  (∀ e, deliver m = Raise e → is_Exception e = true) →
  send deliver m s = (Ok tt, mk_bot_state (outbox s ++ [m]) (closed s))
  ∨ ∃ e, send deliver m s = (Raise e, s) ∧ is_Exception e = true.
Proof.
  intros H. unfold send. destruct (deliver m) as [[]|e]; [by left|].
  right. exists e. auto.
Qed.

(** X15. The startup check never raises, as long as what goes wrong in the
    request or the delivery is an [Exception]; it leaves the connection as
    it is and sends at most one message, the notification of the events
    retained by the filter; and it does send it when the page is not empty,
    the filter retains an event, the channel exists and delivery succeeds. *)
Theorem check_ctfs_never_raises_and_sends_at_most_one_embed
    (net : http_outcome) (now : datetime) (channel_found : bool) (s : bot_state) :
  (∀ e, transport_failure net = Some e → is_Exception e = true) →
  (∀ m e, deliver m = Raise e → is_Exception e = true) →
  ∃ s',
    check_ctfs ucd html_parser deliver net now channel_found s = (Ok tt, s')
    ∧ closed s' = closed s
    ∧ (outbox s' = outbox s
       ∨ ∃ html page all_events upcoming_events embed,
           fetch_page net = Ok html
           ∧ html_parser html = Parsed page
           ∧ parse_events ucd page = Ok all_events
           ∧ filter_upcoming_week_events ucd now all_events = Ok upcoming_events
           ∧ upcoming_events ≠ []
           ∧ channel_found = true
           ∧ send_ctf_notification upcoming_events = Ok embed
           ∧ outbox s' = outbox s ++ [EmbedMessage embed])
    ∧ (∀ html page all_events upcoming_events embed,
         fetch_page net = Ok html → html ≠ [] →
         html_parser html = Parsed page →
         parse_events ucd page = Ok all_events →
         filter_upcoming_week_events ucd now all_events = Ok upcoming_events →
         upcoming_events ≠ [] →
         channel_found = true →
         send_ctf_notification upcoming_events = Ok embed →
         deliver (EmbedMessage embed) = Ok tt →
         outbox s' = outbox s ++ [EmbedMessage embed]).
Proof.
  intros Hnet Hdel.
  destruct (fetch_page_returns net Hnet) as [html Hfetch].
  unfold check_ctfs, try_except, bind, lift, ret. rewrite Hfetch.
  destruct html as [|c html].
  { exists s. repeat split; auto. intros ? ? ? ? ? [= <-]. done. }
  unfold parse_html.
  destruct (html_parser (c :: html)) as [page|] eqn:Hpage.
  2: { exists s. repeat split; auto. intros ? ? ? ? ? [= <-] _ Hp. congruence. }
  destruct (parse_events_returns page) as [all_events Hparse].
  rewrite Hparse.
  destruct (filter_returns_or_overflows now all_events) as [[upcoming Hfilter] | Hfilter];
    rewrite Hfilter.
  2: { exists s. repeat split; auto. intros ? ? ? ? ? [= <-] _ Hp Hq Hf. congruence. }
  destruct upcoming as [|ev upcoming].
  { exists s. repeat split; auto. intros ? ? ? ? ? [= <-] _ Hp Hq Hf. congruence. }
  destruct channel_found; [|exists s; repeat split; auto; done].
  destruct (send_ctf_notification_fields (ev :: upcoming)) as (embed & Hsend & _).
  rewrite Hsend.
  destruct (send_outcome (EmbedMessage embed) s (Hdel _)) as [Hok | (e & Hraise & He)].
  - rewrite Hok. eexists. split; [reflexivity|]. split; [done|]. split.
    + right. exists (c :: html), page, all_events, (ev :: upcoming), embed. by repeat split.
    + intros ? ? ? ? ? [= <-] _ Hp Hq Hf _ _ Hs _. cbn [outbox]. congruence.
  - rewrite Hraise, He. exists s. repeat split; auto.
    intros html' page' all' upcoming' embed' [= <-] _ Hp Hq Hf _ _ Hs Hd.
    assert (embed' = embed) as -> by congruence.
    unfold send in Hraise. rewrite Hd in Hraise. discriminate Hraise.
Qed.

(** X16. The startup check says nothing when the fetch yields no content,
    when the channel is not found, or when the filter raises: the outbox is
    unchanged and no exception escapes. *)
Theorem check_ctfs_is_silent_on_failure
    (net : http_outcome) (now : datetime) (channel_found : bool) (s : bot_state) :
  (∀ e, transport_failure net = Some e → is_Exception e = true) →
  fetch_page net = Ok []
  ∨ channel_found = false
  ∨ add_days now 7 = Raise OverflowError →
  check_ctfs ucd html_parser deliver net now channel_found s = (Ok tt, s).
Proof.
  intros Hnet Hfail.
  destruct (fetch_page_returns net Hnet) as [html Hfetch].
  unfold check_ctfs, try_except, bind, lift, ret. rewrite Hfetch.
  destruct html as [|c html]; [done|].
  destruct Hfail as [Hempty | Hfail]; [congruence|].
  unfold parse_html. destruct (html_parser (c :: html)) as [page|]; [|done].
  destruct (parse_events_returns page) as [all_events Hparse].
  rewrite Hparse.
  destruct Hfail as [-> | Hover].
  - destruct (filter_returns_or_overflows now all_events) as [[upcoming Hfilter] | Hfilter];
      rewrite Hfilter; [by destruct upcoming | done].
  - by rewrite filter_upcoming_week_events_keeps, Hover.
Qed.

(** X17. When messages are delivered, [manual_check] always sends exactly
    two: the acknowledgement, then one reply.  The reply is the fetch
    failure when the fetch yields no content; the error text of
    [ParserRejectedMarkup] when the parser rejects the page; the error text
    of [OverflowError] when the filter raises; the "no CTFs" text when the
    filter retains nothing; and otherwise the notification of the events
    the filter retained from the parsed page. *)
Theorem manual_check_always_answers
    (net : http_outcome) (now : datetime) (s : bot_state) :
  (∀ e, transport_failure net = Some e → is_Exception e = true) →
  (∀ m, deliver m = Ok tt) →
  ∃ reply,
    manual_check ucd html_parser deliver exn_text net now s
    = (Ok tt, mk_bot_state (outbox s ++ [Text checking_text; reply]) (closed s))
    ∧ ((fetch_page net = Ok [] ∧ reply = Text fetch_failed_text)
       ∨ (∃ html,
            fetch_page net = Ok html ∧ html ≠ []
            ∧ html_parser html = Rejected
            ∧ reply = Text (error_checking_text ++ exn_text ParserRejectedMarkup))
       ∨ (∃ html page all_events,
            fetch_page net = Ok html ∧ html ≠ []
            ∧ html_parser html = Parsed page
            ∧ parse_events ucd page = Ok all_events
            ∧ ((filter_upcoming_week_events ucd now all_events = Raise OverflowError
                ∧ reply = Text (error_checking_text ++ exn_text OverflowError))
               ∨ (filter_upcoming_week_events ucd now all_events = Ok []
                  ∧ reply = Text no_week_text)
               ∨ (∃ upcoming_events embed,
                    filter_upcoming_week_events ucd now all_events = Ok upcoming_events
                    ∧ upcoming_events ≠ []
                    ∧ send_ctf_notification upcoming_events = Ok embed
                    ∧ reply = EmbedMessage embed)))).
Proof.
  intros Hnet Hdel.
  destruct (fetch_page_returns net Hnet) as [html Hfetch].
  unfold manual_check, try_except, bind, lift, ret.
  rewrite send_ok by done. rewrite Hfetch. cbn [outbox closed].
  destruct html as [|c html].
  { rewrite send_ok by done. cbn [outbox closed]. rewrite <- app_assoc. eauto. }
  unfold parse_html.
  destruct (html_parser (c :: html)) as [page|] eqn:Hpage.
  2: { cbn [is_Exception]. rewrite send_ok by done. cbn [outbox closed].
       rewrite <- app_assoc. eexists. split; [reflexivity|].
       right. left. exists (c :: html). by repeat split. }
  destruct (parse_events_returns page) as [all_events Hparse].
  rewrite Hparse.
  destruct (filter_returns_or_overflows now all_events) as [[upcoming Hfilter] | Hfilter];
    rewrite Hfilter.
  - destruct upcoming as [|ev upcoming].
    + rewrite send_ok by done. cbn [outbox closed]. rewrite <- app_assoc.
      eexists. split; [reflexivity|]. do 2 right.
      exists (c :: html), page, all_events. repeat split; try done. right. by left.
    + destruct (send_ctf_notification_fields (ev :: upcoming)) as (embed & Hsend & _).
      rewrite Hsend, send_ok by done. cbn [outbox closed]. rewrite <- app_assoc.
      eexists. split; [reflexivity|]. do 2 right.
      exists (c :: html), page, all_events. repeat split; try done. do 2 right.
      by exists (ev :: upcoming), embed.
  - cbn [is_Exception]. rewrite send_ok by done. cbn [outbox closed].
    rewrite <- app_assoc. eexists. split; [reflexivity|]. do 2 right.
    exists (c :: html), page, all_events. repeat split; try done. by left.
Qed.

(** X18. When messages are delivered, [next_ctfs] sends exactly one
    message: the fetch failure when the fetch yields no content; the error
    text of [ParserRejectedMarkup] when the parser rejects the page, and in
    no other case an error text; the "no upcoming CTFs" text when no event
    is parsed; and otherwise the embed built from the parsed events. *)
Theorem next_ctfs_sends_exactly_one_message
    (net : http_outcome) (limit : Z) (s : bot_state) :
  (∀ e, transport_failure net = Some e → is_Exception e = true) →
  (∀ m, deliver m = Ok tt) →
  ∃ reply,
    next_ctfs ucd html_parser deliver exn_text net limit s
    = (Ok tt, mk_bot_state (outbox s ++ [reply]) (closed s))
    ∧ ((fetch_page net = Ok [] ∧ reply = Text fetch_failed_text)
       ∨ (∃ html,
            fetch_page net = Ok html ∧ html ≠ []
            ∧ html_parser html = Rejected
            ∧ reply = Text (error_fetching_text ++ exn_text ParserRejectedMarkup))
       ∨ (∃ html page events,
            fetch_page net = Ok html ∧ html ≠ []
            ∧ html_parser html = Parsed page
            ∧ parse_events ucd page = Ok events
            ∧ ((events = [] ∧ reply = Text no_upcoming_text)
               ∨ (events ≠ []
                  ∧ ∃ embed, next_ctfs_embed limit events = Ok embed
                             ∧ reply = EmbedMessage embed)))).
Proof.
  intros Hnet Hdel.
  destruct (fetch_page_returns net Hnet) as [html Hfetch].
  unfold next_ctfs, try_except, bind, lift, ret. rewrite Hfetch.
  destruct html as [|c html]; [rewrite send_ok by done; eauto|].
  unfold parse_html.
  destruct (html_parser (c :: html)) as [page|] eqn:Hpage.
  2: { cbn [is_Exception]. rewrite send_ok by done.
       eexists. split; [reflexivity|]. right. left. exists (c :: html). by repeat split. }
  destruct (parse_events_returns page) as [events Hparse].
  rewrite Hparse.
  destruct events as [|ev events].
  - rewrite send_ok by done. eexists. split; [reflexivity|]. do 2 right.
    exists (c :: html), page, []. repeat split; try done. by left.
  - rewrite next_ctfs_embed_fields, send_ok by done.
    eexists. split; [reflexivity|]. do 2 right.
    exists (c :: html), page, (ev :: events). repeat split; try done. right.
    split; [done|]. eexists. split; [apply next_ctfs_embed_fields | reflexivity].
Qed.

(** X19. [on_ready] always closes the connection, whatever the startup
    check meets, after at most one message. *)
Theorem on_ready_always_closes
    (cog_loaded : bool) (net : http_outcome) (now : datetime) (channel_found : bool)
    (s : bot_state) :
  (∀ e, transport_failure net = Some e → is_Exception e = true) →
  (∀ m e, deliver m = Raise e → is_Exception e = true) →
  ∃ s',
    on_ready ucd html_parser deliver cog_loaded net now channel_found s = (Ok tt, s')
    ∧ closed s' = true
    ∧ (length (outbox s') ≤ length (outbox s) + 1)%nat.
Proof.
  intros Hnet Hdel. unfold on_ready, bind, close, modify.
  destruct cog_loaded.
  - destruct (fetch_page_returns net Hnet) as [html Hfetch].
    unfold check_ctfs, try_except, bind, lift, ret. rewrite Hfetch.
    destruct html as [|c html]; [eexists; repeat split; simpl; lia|].
    unfold parse_html.
    destruct (html_parser (c :: html)) as [page|];
      [|eexists; repeat split; simpl; lia].
    destruct (parse_events_returns page) as [all_events Hparse].
    rewrite Hparse.
    destruct (filter_returns_or_overflows now all_events) as [[upcoming Hfilter] | Hfilter];
      rewrite Hfilter; [|eexists; repeat split; simpl; lia].
    destruct upcoming as [|ev upcoming]; [eexists; repeat split; simpl; lia|].
    destruct channel_found; [|eexists; repeat split; simpl; lia].
    destruct (send_ctf_notification_fields (ev :: upcoming)) as (embed & Hsend & _).
    rewrite Hsend.
    destruct (send_outcome (EmbedMessage embed) s (Hdel _)) as [Hok | (e & Hraise & He)].
    + rewrite Hok. eexists. repeat split. simpl. rewrite length_app. simpl. lia.
    + rewrite Hraise, He. eexists. repeat split. simpl. lia.
  - unfold ret. eexists. repeat split. simpl. lia.
Qed.
End MoreBot.

Lemma same_day_next_year (y m d : Z) :
  365 ≤ toordinal (mk_date (y + 1) m d) - toordinal (mk_date y m d) ≤ 366.
Proof.
  unfold toordinal, days_before_month. cbn [year month day].
  rewrite days_before_year_succ.
  destruct (is_leap y), (is_leap (y + 1)), (2 <? m); simpl; lia.
Qed.

Lemma toordinal_lt_date_lt (a b : date) :
  date_valid a = true → date_valid b = true →
  toordinal a < toordinal b → date_lt a b = true.
Proof.
  intros Ha Hb Hlt. destruct (date_lt a b) eqn:Hab; [done|].
  apply date_lt_total in Hab. apply date_le_toordinal in Hab; [lia|done|done].
Qed.

Section Started.
Context (ucd : UCD).

(** X4. A start text without a year whose date in the current year lies 1
    to 357 days before today is taken to be next year's and is not
    retained: an event that has already started is not listed. *)
Theorem started_yearless_event_is_not_listed
    (now week_end : datetime) (event : CTFEvent) (dtext token : str) (tm : option str)
    (d m : Z) (candidate : date) :
  add_days now 7 = Ok week_end →
  date_valid (dt_date now) = true →
  date_groups ucd (start_time event) = Some (Some dtext, Some token, None, tm) →
  py_int ucd (Some dtext) = Ok d →
  month_number (Some token) = Ok m →
  datetime_date (year (dt_date now)) m d = Ok candidate →
  1 ≤ toordinal (dt_date now) - toordinal candidate ≤ 357 →
  filter_upcoming_week_events ucd now [event] = Ok [].
Proof.
  intros Hweek Hnow Hg Hd Hm Hc Hdays.
  rewrite filter_upcoming_week_events_keeps, Hweek. f_equal.
  cbn [List.filter]. unfold keeps.
  unfold date_groups in Hg.
  destruct (re_search ucd date_re (start_time event)) as [caps|] eqn:Hs; [|done].
  change (Some (groups caps) = Some (Some dtext, Some token, None, tm)) in Hg.
  apply (inj Some) in Hg. unfold groups in Hg.
  injection Hg as H1 H2 H3 H4.
  destruct (resolve_start_steps ucd now _ caps Hs)
    as (dtext' & d' & m' & H1' & Hd' & Hm' & [[_ Hr] | (ys & y & H3' & _)]); [|congruence].
  assert (dtext' = dtext) as -> by congruence.
  assert (d' = d) as -> by congruence.
  assert (m' = m) as -> by (rewrite H2 in Hm'; congruence).
  rewrite Hr, Hc.
  pose proof Hc as Hc'. apply datetime_date_ok in Hc' as [-> Hcv].
  rewrite (toordinal_lt_date_lt (mk_date (year (dt_date now)) m d) _ Hcv Hnow) by lia.
  destruct (datetime_date (year (dt_date now) + 1) m d) as [next|] eqn:Hn; [|done].
  apply datetime_date_ok in Hn as [-> Hnv].
  destruct (date_le _ _ && date_le _ _) eqn:Hwin; [|done].
  apply (window_is_seven_days now week_end (mk_date (year (dt_date now) + 1) m d)
           Hnow Hweek Hnv) in Hwin.
  pose proof (same_day_next_year (year (dt_date now)) m d). lia.
Qed.
End Started.

Lemma matched_start_fails_only_on_calendar_witness :
  (∃ d m, py_int ascii_ucd (match_of "31 Feb., 10:00 UTC" !! 1%nat) = Ok d
          ∧ month_number (match_of "31 Feb., 10:00 UTC" !! 2%nat) = Ok m)
  ∧ (match_of "31 Feb., 10:00 UTC" !! 3%nat = None
     ∨ ∃ y, py_int ascii_ucd (match_of "31 Feb., 10:00 UTC" !! 3%nat) = Ok y)
  ∧ ∀ e, resolve_start ascii_ucd now_2025_08_15 (match_of "31 Feb., 10:00 UTC") = Raise e
         → e = ValueError.
Proof.
  apply (matched_start_fails_only_on_calendar ascii_ucd now_2025_08_15
           (str_of "31 Feb., 10:00 UTC")).
  vm_compute; reflexivity.
Defined.

Lemma explicit_year_is_taken_as_written_witness :
  ∃ d m y,
    py_int ascii_ucd (match_of "20 Aug. 2020, 10:00 UTC" !! 1%nat) = Ok d
    ∧ month_number (match_of "20 Aug. 2020, 10:00 UTC" !! 2%nat) = Ok m
    ∧ py_int ascii_ucd (Some (str_of "2020")) = Ok y
    ∧ ∀ now, resolve_start ascii_ucd now (match_of "20 Aug. 2020, 10:00 UTC")
             = datetime_date y m d.
Proof.
  apply (explicit_year_is_taken_as_written ascii_ucd (str_of "20 Aug. 2020, 10:00 UTC"));
    vm_compute; reflexivity.
Defined.

Lemma yearless_start_is_never_in_the_past_witness :
  date_le (dt_date now_2025_08_15) (mk_date 2026 1 5) = true
  ∧ (year (mk_date 2026 1 5) = year (dt_date now_2025_08_15)
     ∨ year (mk_date 2026 1 5) = year (dt_date now_2025_08_15) + 1).
Proof.
  apply (yearless_start_is_never_in_the_past ascii_ucd now_2025_08_15
           (str_of "5 Jan., 10:00 UTC") (match_of "5 Jan., 10:00 UTC"));
    vm_compute; reflexivity.
Defined.

Lemma started_yearless_event_is_not_listed_witness :
  filter_upcoming_week_events ascii_ucd now_2025_08_15 [event_at "14 Aug., 10:00 UTC"]
  = Ok [].
Proof.
  apply (started_yearless_event_is_not_listed ascii_ucd now_2025_08_15 week_end_2025_08_22
           (event_at "14 Aug., 10:00 UTC") (str_of "14") (str_of "Aug")
           (Some (str_of "10:00")) 14 8 (mk_date 2025 8 14));
    try (vm_compute; reflexivity).
  vm_compute. split; discriminate.
Defined.

Lemma filter_raises_only_at_the_end_of_time_witness :
  (∃ kept, filter_upcoming_week_events ascii_ucd now_2025_08_15
             [event_at "20 Aug., 10:00 UTC"] = Ok kept)
  ↔ toordinal (dt_date now_2025_08_15) + 7 ≤ MAXORDINAL.
Proof.
  apply (proj1 (proj2 (filter_raises_only_at_the_end_of_time ascii_ucd now_2025_08_15
                         [event_at "20 Aug., 10:00 UTC"]))).
  vm_compute; reflexivity.
Defined.

Lemma filter_is_idempotent_witness :
  filter_upcoming_week_events ascii_ucd now_2025_08_15 [event_at "20 Aug., 10:00 UTC"]
  = Ok [event_at "20 Aug., 10:00 UTC"].
Proof.
  apply (filter_is_idempotent ascii_ucd now_2025_08_15
           [event_at "5 Jan., 10:00 UTC"; event_at "20 Aug., 10:00 UTC"]).
  vm_compute; reflexivity.
Defined.

Lemma filter_distributes_over_append_witness :
  filter_upcoming_week_events ascii_ucd now_2025_08_15
    ([event_at "20 Aug., 10:00 UTC"; event_at "5 Jan., 10:00 UTC"]
     ++ [event_at "22 Aug. 2025, 10:00 UTC"])
  = Ok ([event_at "20 Aug., 10:00 UTC"] ++ [event_at "22 Aug. 2025, 10:00 UTC"]).
Proof.
  apply (filter_distributes_over_append ascii_ucd now_2025_08_15); vm_compute; reflexivity.
Defined.

Lemma window_has_eight_dates_witness :
  filter_upcoming_week_events ascii_ucd now_2025_08_15 [event_at "22 Aug. 2025, 10:00 UTC"]
  = Ok [event_at "22 Aug. 2025, 10:00 UTC"]
  ↔ ∃ k, 0 ≤ k ≤ 7 ∧ mk_date 2025 8 22 = fromordinal (toordinal (dt_date now_2025_08_15) + k).
Proof.
  apply (proj2 (window_has_eight_dates now_2025_08_15 week_end_2025_08_22 (mk_date 2025 8 22)
                  ltac:(vm_compute; reflexivity) ltac:(vm_compute; reflexivity)
                  ltac:(vm_compute; reflexivity))
           ascii_ucd (event_at "22 Aug. 2025, 10:00 UTC")
           (match_of "22 Aug. 2025, 10:00 UTC"));
    vm_compute; reflexivity.
Defined.

Lemma parsed_event_is_trimmed_and_absolute_witness :
  (∃ path, url parsed_example_event = base_url ++ path)
  ∧ strip ascii_ucd (title parsed_example_event) = title parsed_example_event
  ∧ strip ascii_ucd (start_time parsed_example_event) = start_time parsed_example_event
  ∧ strip ascii_ucd (format_type parsed_example_event) = format_type parsed_example_event.
Proof.
  apply (parsed_event_is_trimmed_and_absolute ascii_ucd example_page [parsed_example_event]).
  - vm_compute; reflexivity.
  - constructor.
Defined.

Lemma parsed_start_text_and_duration_agree_witness :
  (em_dash ∉ start_time parsed_example_event)
  ∧ (duration parsed_example_event = str_of "Unknown"
     ∨ ∃ end_part,
         duration parsed_example_event
         = start_time parsed_example_event ++ str_of " to " ++ end_part
         ∧ em_dash ∉ end_part).
Proof.
  apply (parsed_start_text_and_duration_agree ascii_ucd example_page [parsed_example_event]).
  - vm_compute; reflexivity.
  - constructor.
Defined.

Lemma notification_has_at_most_eleven_fields_witness :
  ∃ embed,
    send_ctf_notification (replicate 12 (event_at "20 Aug., 10:00 UTC")) = Ok embed
    ∧ (length (e_fields embed) ≤ 11)%nat
    ∧ (length (e_fields embed) ≤ length (replicate 12 (event_at "20 Aug., 10:00 UTC")))%nat
    ∧ (replicate 12 (event_at "20 Aug., 10:00 UTC") ≠ [] → e_fields embed ≠ []).
Proof.
  exact (notification_has_at_most_eleven_fields (replicate 12 (event_at "20 Aug., 10:00 UTC"))).
Defined.

Lemma next_ctfs_shows_as_many_as_it_says_witness :
  ∃ embed,
    next_ctfs_embed 5 (replicate 3 (event_at "20 Aug., 10:00 UTC")) = Ok embed
    ∧ e_fields embed
      = event_field <$> take (Z.to_nat 5) (replicate 3 (event_at "20 Aug., 10:00 UTC"))
    ∧ Z.of_nat (length (e_fields embed))
      = Z.min 5 (Z.of_nat (length (replicate 3 (event_at "20 Aug., 10:00 UTC"))))
    ∧ e_description embed
      = str_of "Here are the next " ++ py_str (Z.of_nat (length (e_fields embed)))
        ++ str_of " upcoming CTFs:".
Proof.
  apply (next_ctfs_shows_as_many_as_it_says 5 (replicate 3 (event_at "20 Aug., 10:00 UTC"))).
  lia.
Defined.

Lemma next_ctfs_negative_limit_drops_from_the_end_witness :
  ∃ embed,
    next_ctfs_embed (-1) (replicate 3 (event_at "20 Aug., 10:00 UTC")) = Ok embed
    ∧ e_fields embed
      = event_field <$> take (length (replicate 3 (event_at "20 Aug., 10:00 UTC"))
                              - Z.to_nat (- -1))
                         (replicate 3 (event_at "20 Aug., 10:00 UTC"))
    ∧ e_description embed
      = str_of "Here are the next " ++ py_str (-1) ++ str_of " upcoming CTFs:".
Proof.
  apply (next_ctfs_negative_limit_drops_from_the_end (-1)
           (replicate 3 (event_at "20 Aug., 10:00 UTC"))).
  lia.
Defined.

Lemma check_ctfs_never_raises_and_sends_at_most_one_embed_witness :
  ∃ s',
    check_ctfs ascii_ucd example_parser always_delivered ok_response now_2025_08_15 true
      idle_bot = (Ok tt, s')
    ∧ closed s' = closed idle_bot.
Proof.
  destruct (check_ctfs_never_raises_and_sends_at_most_one_embed ascii_ucd example_parser
              always_delivered ok_response now_2025_08_15 true idle_bot)
    as (s' & Hrun & Hclosed & _).
  - intros e H. discriminate H.
  - intros m e H. discriminate H.
  - exists s'. split; [exact Hrun | exact Hclosed].
Defined.

Lemma check_ctfs_is_silent_on_failure_witness :
  check_ctfs ascii_ucd example_parser always_delivered (Response 503 (BodyText (str_of "busy")))
    now_2025_08_15 true idle_bot = (Ok tt, idle_bot).
Proof.
  apply (check_ctfs_is_silent_on_failure ascii_ucd example_parser always_delivered
           (Response 503 (BodyText (str_of "busy"))) now_2025_08_15 true idle_bot).
  - intros e H. discriminate H.
  - left. reflexivity.
Defined.

Lemma manual_check_always_answers_witness :
  ∃ reply,
    manual_check ascii_ucd rejecting_parser always_delivered example_exn_text ok_response
      now_2025_08_15 idle_bot
    = (Ok tt, mk_bot_state (outbox idle_bot ++ [Text checking_text; reply]) (closed idle_bot)).
Proof.
  destruct (manual_check_always_answers ascii_ucd rejecting_parser always_delivered
              example_exn_text ok_response now_2025_08_15 idle_bot)
    as (reply & Hrun & _).
  - intros e H. discriminate H.
  - intros m. reflexivity.
  - exists reply. exact Hrun.
Defined.

Lemma next_ctfs_sends_exactly_one_message_witness :
  ∃ reply,
    next_ctfs ascii_ucd example_parser always_delivered example_exn_text ok_response 5
      idle_bot
    = (Ok tt, mk_bot_state (outbox idle_bot ++ [reply]) (closed idle_bot)).
Proof.
  destruct (next_ctfs_sends_exactly_one_message ascii_ucd example_parser always_delivered
              example_exn_text ok_response 5 idle_bot)
    as (reply & Hrun & _).
  - intros e H. discriminate H.
  - intros m. reflexivity.
  - exists reply. exact Hrun.
Defined.

Lemma on_ready_always_closes_witness :
  ∃ s',
    on_ready ascii_ucd example_parser always_delivered true ok_response now_2025_08_15 true
      idle_bot = (Ok tt, s')
    ∧ closed s' = true
    ∧ (length (outbox s') ≤ length (outbox idle_bot) + 1)%nat.
Proof.
  apply (on_ready_always_closes ascii_ucd example_parser always_delivered true ok_response
           now_2025_08_15 true idle_bot).
  - intros e H. discriminate H.
  - intros m e H. discriminate H.
Defined.
